(** * Blackjack over TCP/UDP: wire codec and dealer round engine

    A shallow embedding of [protocol.py] (the frame codec) and of the
    dealer side of [server.py] (deck, round engine, connection worker),
    together with the properties of the protocol specification.

    Conventions.
    - A Python [int] is a [Z]; a [bytes] object is a [list Z] whose
      elements are meant to lie in 0..255; a [str] is the list of its code
      points.
    - A Python call that may raise returns a [result]; code that also reads
      or writes the socket or draws random numbers lives in the monad [M].
    - The few pieces of the Python runtime the program leans on ([struct],
      the UTF-8 and ASCII codecs, [list.pop], [random.shuffle]) are modelled
      in the modules [Py], [Struct], [Codecs] and [Random]. *)

From stdpp Require Import base numbers list.
From Stdlib Require Import ZArith Lia.
From Stdlib Require String Ascii.
Import String.StringSyntax.
Delimit Scope string_scope with string.

Local Open Scope Z_scope.

(* ================================================================== *)
(** ** Python runtime: exceptions and results *)
(* ================================================================== *)

Module Py.

(** The exception classes that can show up in the program. *)
Inductive exn : Set :=
| StructError        (* struct.error *)
| ValueError
| TypeError
| IndexError
| UnicodeEncodeError
| ConnectionError
| OSError.

Inductive result (A : Type) : Type :=
| Ok (a : A)
| Raise (e : exn).
Arguments Ok {A} a.
Arguments Raise {A} e.

Definition bind {A B} (r : result A) (k : A -> result B) : result B :=
  match r with
  | Ok a => k a
  | Raise e => Raise e
  end.

Abbreviation bytes := (list Z) (only parsing).
Abbreviation str := (list Z) (only parsing).

(** A string literal, as the list of its code points. *)
Definition lit (s : String.string) : str :=
  map (fun a => Z.of_N (Ascii.N_of_ascii a)) (String.list_ascii_of_string s).

Definition str_eqb (a b : str) : bool := bool_decide (a = b).

(** [l.pop()]: removes and returns the last element; [IndexError] on an
    empty list. *)
Definition list_pop {A} (l : list A) : result (A * list A) :=
  match rev l with
  | [] => Raise IndexError
  | x :: r => Ok (x, rev r)
  end.

End Py.
Import Py.

Declare Scope py_scope.
Delimit Scope py_scope with py.
Notation "'let*' x ':=' r 'in' k" := (Py.bind r (fun x => k))
  (at level 10, x name, r at level 100, k at level 200) : py_scope.
Local Open Scope py_scope.

(* ================================================================== *)
(** ** The [struct] module, for the formats the protocol uses *)
(* ================================================================== *)

Module Struct.

(** Format characters: [I] (uint32), [B] (uint8), [H] (uint16) and [Ns].
    The byte order is always [!] (network, big-endian, no padding). *)
Inductive item : Set := fI | fB | fH | fs (n : nat).

Inductive value : Type :=
| VInt (z : Z)
| VBytes (b : bytes).

Definition width (it : item) : nat :=
  match it with
  | fI => 4 | fB => 1 | fH => 2 | fs n => n
  end%nat.

Definition calcsize (f : list item) : nat := sum_list (width <$> f).

(** Big-endian bytes of [v], [n] of them. *)
Fixpoint be_bytes (n : nat) (v : Z) : bytes :=
  match n with
  | O => []
  | S k => (v / 256 ^ Z.of_nat k) mod 256 :: be_bytes k v
  end.

Definition be_int (b : bytes) : Z :=
  fold_left (fun acc x => acc * 256 + x) b 0.

Definition pack_int (n : nat) (z : Z) : result bytes :=
  if (0 <=? z) && (z <? 256 ^ Z.of_nat n) then Ok (be_bytes n z)
  else Raise StructError.

(** [Ns]: the argument is cut or zero-padded to exactly [n] bytes. *)
Definition pack_s (n : nat) (b : bytes) : bytes :=
  take n b ++ replicate (n - length b) 0.

Fixpoint pack (f : list item) (vs : list value) : result bytes :=
  match f, vs with
  | [], [] => Ok []
  | fs n :: f', VBytes b :: vs' =>
      let* rest := pack f' vs' in Ok (pack_s n b ++ rest)
  | fs _ :: _, _ => Raise StructError
  | it :: f', VInt z :: vs' =>
      let* here := pack_int (width it) z in
      let* rest := pack f' vs' in Ok (here ++ rest)
  | _, _ => Raise StructError
  end.

Fixpoint parse (f : list item) (data : bytes) : list value :=
  match f with
  | [] => []
  | fs n :: f' => VBytes (take n data) :: parse f' (drop n data)
  | it :: f' =>
      VInt (be_int (take (width it) data)) :: parse f' (drop (width it) data)
  end.

(** [Struct.unpack]: the buffer must have exactly the size of the format. *)
Definition unpack (f : list item) (data : bytes) : result (list value) :=
  if decide (length data = calcsize f) then Ok (parse f data)
  else Raise StructError.

End Struct.
Import Struct.

(* ================================================================== *)
(** ** The text codecs *)
(* ================================================================== *)

Module Codecs.

(** A code point that UTF-8 can encode: a Unicode scalar value. *)
Definition is_surrogate (c : Z) : bool := (0xD800 <=? c) && (c <=? 0xDFFF).
Definition scalar (c : Z) : Prop :=
  0 <= c <= 0x10FFFF /\ ~ (0xD800 <= c <= 0xDFFF).

Definition utf8_encode_char (c : Z) : bytes :=
  if c <? 0x80 then [c]
  else if c <? 0x800 then [0xC0 + c / 64; 0x80 + c mod 64]
  else if c <? 0x10000 then
    [0xE0 + c / 4096; 0x80 + (c / 64) mod 64; 0x80 + c mod 64]
  else
    [0xF0 + c / 262144; 0x80 + (c / 4096) mod 64;
     0x80 + (c / 64) mod 64; 0x80 + c mod 64].

(** [s.encode("utf-8", errors="ignore")]: a lone surrogate cannot be
    encoded and is left out. *)
Fixpoint utf8_encode_ignore (s : str) : bytes :=
  match s with
  | [] => []
  | c :: s' =>
      if is_surrogate c then utf8_encode_ignore s'
      else utf8_encode_char c ++ utf8_encode_ignore s'
  end.

Definition is_cont (b : Z) : bool := (0x80 <=? b) && (b <? 0xC0).

(** [b.decode("utf-8", errors="ignore")], after CPython's decoder: a
    byte that cannot start a sequence is skipped alone; when a
    continuation byte is wrong, the bytes accepted so far are skipped and
    decoding resumes at the offending byte; a sequence cut short by the
    end of the buffer is dropped. *)
Fixpoint utf8_decode_ignore (b : bytes) : str :=
  match b with
  | [] => []
  | ch :: t1 =>
    if ch <? 0x80 then ch :: utf8_decode_ignore t1
    else if ch <? 0xC2 then utf8_decode_ignore t1
    else if ch <? 0xE0 then
      match t1 with
      | [] => []
      | ch2 :: t2 =>
        if is_cont ch2
        then (ch * 64 + ch2 - (0xC0 * 64 + 0x80)) :: utf8_decode_ignore t2
        else utf8_decode_ignore t1
      end
    else if ch <? 0xF0 then
      match t1 with
      | [] => []
      | ch2 :: t2 =>
        if negb (is_cont ch2)
           || (if ch2 <? 0xA0 then ch =? 0xE0 else ch =? 0xED)
        then utf8_decode_ignore t1
        else
          match t2 with
          | [] => []
          | ch3 :: t3 =>
            if is_cont ch3
            then (ch * 4096 + ch2 * 64 + ch3
                  - (0xE0 * 4096 + 0x80 * 64 + 0x80))
                 :: utf8_decode_ignore t3
            else utf8_decode_ignore t2
          end
      end
    else if ch <? 0xF5 then
      match t1 with
      | [] => []
      | ch2 :: t2 =>
        if negb (is_cont ch2)
           || (if ch2 <? 0x90 then ch =? 0xF0 else ch =? 0xF4)
        then utf8_decode_ignore t1
        else
          match t2 with
          | [] => []
          | ch3 :: t3 =>
            if negb (is_cont ch3) then utf8_decode_ignore t2
            else
              match t3 with
              | [] => []
              | ch4 :: t4 =>
                if is_cont ch4
                then (ch * 262144 + ch2 * 4096 + ch3 * 64 + ch4
                      - (0xF0 * 262144 + 0x80 * 4096 + 0x80 * 64 + 0x80))
                     :: utf8_decode_ignore t4
                else utf8_decode_ignore t3
              end
          end
      end
    else utf8_decode_ignore t1
  end.

(** [s.encode("ascii")], strict. *)
Definition ascii_encode (s : str) : result bytes :=
  if forallb (fun c => (0 <=? c) && (c <? 0x80)) s then Ok s
  else Raise UnicodeEncodeError.

(** [b.decode("ascii", errors="ignore")]: bytes 0x80 and above are
    left out. *)
Definition ascii_decode_ignore (b : bytes) : str :=
  filter (fun x => x < 0x80) b.

(** [b.split(b"\x00", 1)[0]]: what comes before the first zero byte. *)
Fixpoint before_first_zero (b : bytes) : bytes :=
  match b with
  | [] => []
  | x :: b' => if x =? 0 then [] else x :: before_first_zero b'
  end.

End Codecs.
Import Codecs.

(* ================================================================== *)
(** ** protocol.py *)
(* ================================================================== *)

Definition MAGIC_COOKIE : Z := 0xABCDDCBA.

Definition MSG_OFFER : Z := 0x2.
Definition MSG_REQUEST : Z := 0x3.
Definition MSG_PAYLOAD : Z := 0x4.

Definition RES_NOT_OVER : Z := 0x0.
Definition RES_TIE : Z := 0x1.
Definition RES_LOSS : Z := 0x2.
Definition RES_WIN : Z := 0x3.

Definition OFFER_STRUCT : list item := [fI; fB; fH; fs 32].
Definition REQUEST_STRUCT : list item := [fI; fB; fB; fs 32].
Definition CLIENT_PAYLOAD_STRUCT : list item := [fI; fB; fs 5].
Definition SERVER_PAYLOAD_STRUCT : list item := [fI; fB; fB; fH; fB].

Definition _fixed_name_bytes (name : str) : bytes :=
  let b := utf8_encode_ignore name in
  let b := take 32 b in
  b ++ replicate (32 - length b) 0.

Definition _decode_fixed_name (b : bytes) : str :=
  utf8_decode_ignore (before_first_zero b).

Record Offer : Type := { tcp_port : Z; server_name : str }.

Definition pack_offer (tcp_port : Z) (server_name : str) : result bytes :=
  Struct.pack OFFER_STRUCT
    [VInt MAGIC_COOKIE; VInt MSG_OFFER; VInt tcp_port;
     VBytes (_fixed_name_bytes server_name)].

Definition unpack_offer (data : bytes) : result (option Offer) :=
  if decide (length data < calcsize OFFER_STRUCT)%nat then Ok None
  else
    let* fields := Struct.unpack OFFER_STRUCT (take (calcsize OFFER_STRUCT) data) in
    match fields with
    | [VInt cookie; VInt mtype; VInt tcp_port; VBytes name] =>
        if negb (cookie =? MAGIC_COOKIE) || negb (mtype =? MSG_OFFER)
        then Ok None
        else Ok (Some {| tcp_port := tcp_port;
                         server_name := _decode_fixed_name name |})
    | [_; _; _; _] => Raise TypeError
    | _ => Raise ValueError
    end.

Record Request : Type := { rounds : Z; client_name : str }.

Definition pack_request (rounds : Z) (client_name : str) : result bytes :=
  let rounds := Z.land rounds 0xFF in
  Struct.pack REQUEST_STRUCT
    [VInt MAGIC_COOKIE; VInt MSG_REQUEST; VInt rounds;
     VBytes (_fixed_name_bytes client_name)].

Definition unpack_request (data : bytes) : result (option Request) :=
  if decide (length data < calcsize REQUEST_STRUCT)%nat then Ok None
  else
    let* fields := Struct.unpack REQUEST_STRUCT (take (calcsize REQUEST_STRUCT) data) in
    match fields with
    | [VInt cookie; VInt mtype; VInt rounds; VBytes name] =>
        if negb (cookie =? MAGIC_COOKIE) || negb (mtype =? MSG_REQUEST)
        then Ok None
        else Ok (Some {| rounds := rounds;
                         client_name := _decode_fixed_name name |})
    | [_; _; _; _] => Raise TypeError
    | _ => Raise ValueError
    end.

Definition Hittt : str := lit "Hittt"%string.
Definition Stand : str := lit "Stand"%string.

Definition is_decision (s : str) : bool := str_eqb s Hittt || str_eqb s Stand.

Definition pack_client_decision (decision : str) : result bytes :=
  if negb (is_decision decision) then Raise ValueError
  else
    let* d := ascii_encode decision in
    Struct.pack CLIENT_PAYLOAD_STRUCT
      [VInt MAGIC_COOKIE; VInt MSG_PAYLOAD; VBytes d].

Definition unpack_client_decision (data : bytes) : result (option str) :=
  if decide (length data < calcsize CLIENT_PAYLOAD_STRUCT)%nat then Ok None
  else
    let* fields :=
      Struct.unpack CLIENT_PAYLOAD_STRUCT
        (take (calcsize CLIENT_PAYLOAD_STRUCT) data) in
    match fields with
    | [VInt cookie; VInt mtype; VBytes d] =>
        if negb (cookie =? MAGIC_COOKIE) || negb (mtype =? MSG_PAYLOAD)
        then Ok None
        else
          let s := ascii_decode_ignore d in
          Ok (if is_decision s then Some s else None)
    | [_; _; _] => Raise TypeError
    | _ => Raise ValueError
    end.

Definition pack_server_update (result rank suit : Z) : Py.result bytes :=
  Struct.pack SERVER_PAYLOAD_STRUCT
    [VInt MAGIC_COOKIE; VInt MSG_PAYLOAD; VInt (Z.land result 0xFF);
     VInt (Z.land rank 0xFFFF); VInt (Z.land suit 0xFF)].

Definition unpack_server_update (data : bytes) : result (option (Z * Z * Z)) :=
  if decide (length data < calcsize SERVER_PAYLOAD_STRUCT)%nat then Ok None
  else
    let* fields :=
      Struct.unpack SERVER_PAYLOAD_STRUCT
        (take (calcsize SERVER_PAYLOAD_STRUCT) data) in
    match fields with
    | [VInt cookie; VInt mtype; VInt res; VInt rank; VInt suit] =>
        if negb (cookie =? MAGIC_COOKIE) || negb (mtype =? MSG_PAYLOAD)
        then Ok None
        else Ok (Some (res, rank, suit))
    | [_; _; _; _; _] => Raise TypeError
    | _ => Raise ValueError
    end.

Definition card_value (rank : Z) : Z :=
  if 11 <=? rank then 10 else rank.

(* ================================================================== *)
(** ** The connection worker's world: socket and random source *)
(* ================================================================== *)

(** What a worker can observe and change: the bytes the peer sends before
    it closes its side ([inbuf]), the buffers handed to [sendall], in order
    ([sent]), whether the socket was closed, and the random source (an
    endless tape of numbers, [drawn] of which were consumed).  A send always
    succeeds; a peer that stays silent forever is not modelled. *)
Record world : Type := World {
  inbuf : bytes;
  sent : list bytes;
  closed : bool;
  tape : nat -> nat;
  drawn : nat
}.

Definition M (A : Type) : Type := world -> result A * world.

Definition ret {A} (a : A) : M A := fun w => (Ok a, w).
Definition raise {A} (e : exn) : M A := fun w => (Raise e, w).
Definition lift {A} (r : result A) : M A := fun w => (r, w).
Definition mbind {A B} (m : M A) (k : A -> M B) : M B :=
  fun w =>
    match m w with
    | (Ok a, w') => k a w'
    | (Raise e, w') => (Raise e, w')
    end.

Notation "'let!' x ':=' m 'in' k" := (mbind m (fun x => k))
  (at level 10, x name, m at level 100, k at level 200) : py_scope.
Notation "'let!' ' p ':=' m 'in' k" := (mbind m (fun p => k))
  (at level 10, p strict pattern, m at level 100, k at level 200) : py_scope.

Module Random.

(** [randbelow(n)]: some number below [n], read off the tape. *)
Definition randbelow (n : nat) : M nat :=
  fun w =>
    (Ok (tape w (drawn w) mod n)%nat,
     World (inbuf w) (sent w) (closed w) (tape w) (S (drawn w))).

(** [random.shuffle(x)]:
    for i in reversed(range(1, len(x))):
        j = randbelow(i + 1)
        x[i], x[j] = x[j], x[i]
    [shuffle_from k x] runs the iterations [i = k, k-1, ..., 1]. *)
Fixpoint shuffle_from {A} (k : nat) (x : list A) : M (list A) :=
  match k with
  | O => ret x
  | S k' =>
      let i := k in
      let! j := randbelow (i + 1) in
      match x !! j, x !! i with
      | Some xj, Some xi => shuffle_from k' (<[j:=xi]> (<[i:=xj]> x))
      | _, _ => raise IndexError
      end
  end.

Definition shuffle {A} (x : list A) : M (list A) :=
  shuffle_from (length x - 1) x.

End Random.

(* ================================================================== *)
(** ** server.py *)
(* ================================================================== *)

Definition Card : Type := Z * Z.   (* (rank 1..13, suit 0..3) *)

(** [[(rank, suit) for suit in range(4) for rank in range(1, 14)]] *)
Definition ordered_deck : list Card :=
  suit ← seqZ 0 4; rank ← seqZ 1 13; [(rank, suit)].

Definition fresh_shuffled_deck : M (list Card) :=
  Random.shuffle ordered_deck.

Definition read_exact (n : nat) : M bytes :=
  fun w =>
    if decide (n <= length (inbuf w))%nat
    then (Ok (take n (inbuf w)),
          World (drop n (inbuf w)) (sent w) (closed w) (tape w) (drawn w))
    else (Raise ConnectionError,
          World [] (sent w) (closed w) (tape w) (drawn w)).

Definition sendall (data : bytes) : M unit :=
  fun w =>
    (Ok tt, World (inbuf w) (sent w ++ [data]) (closed w) (tape w) (drawn w)).

Definition send_update (result : Z) (card : option Card) : M unit :=
  let! data :=
    lift (match card with
          | None => pack_server_update result 0 0
          | Some (rank, suit) => pack_server_update result rank suit
          end) in
  sendall data.

Definition sum_cards (cards : list Card) : Z :=
  foldr (fun c acc => card_value c.1 + acc) 0 cards.

(** The deck is only ever popped, and [pop] takes the last element: the
    round engine below holds it as a draw pile, top card first, that is the
    deck reversed ([draw_is_pop]). *)
Definition draw (pile : list Card) : M (Card * list Card) :=
  match pile with
  | [] => raise IndexError
  | c :: pile' => ret (c, pile')
  end.

(** How the player's turn ends: [break] after a stand, [break] with
    [player_bust] set, or [return] on an invalid decision. *)
Inductive turn_end : Type :=
| Stood (pile : list Card) (player : list Card)
| Busted (pile : list Card) (player : list Card)
| BadDecision.

(** The [while True] loop of the player's turn. *)
Fixpoint player_turn (pile : list Card) (player : list Card) {struct pile}
  : M turn_end :=
  let! decision_bytes := read_exact (calcsize CLIENT_PAYLOAD_STRUCT) in
  let! decision := lift (unpack_client_decision decision_bytes) in
  match decision with
  | None => ret BadDecision
  | Some decision =>
      if str_eqb decision Stand then ret (Stood pile player)
      else
        match pile with
        | [] => raise IndexError
        | new_card :: pile' =>
            let player' := player ++ [new_card] in
            let! _ := send_update RES_NOT_OVER (Some new_card) in
            let p_sum := sum_cards player' in
            if 21 <? p_sum
            then let! _ := send_update RES_LOSS None in
                 ret (Busted pile' player')
            else player_turn pile' player'
        end
  end.

(** The result byte of the [else] branch of the dealer loop. *)
Definition stand_result (p_sum d_sum : Z) : Z :=
  if 21 <? d_sum then RES_WIN
  else if d_sum <? p_sum then RES_WIN
  else if p_sum <? d_sum then RES_LOSS
  else RES_TIE.

(** The dealer's [while sum_cards(dealer) < 17] loop with its [else]
    branch; the value is the dealer's final hand and what is left of the
    pile. *)
Fixpoint dealer_turn (pile : list Card) (player dealer : list Card)
  {struct pile} : M (list Card * list Card) :=
  if sum_cards dealer <? 17 then
    match pile with
    | [] => raise IndexError
    | c :: pile' =>
        let dealer' := dealer ++ [c] in
        let! _ := send_update RES_NOT_OVER (Some c) in
        let d_sum := sum_cards dealer' in
        if 21 <? d_sum
        then let! _ := send_update RES_WIN None in
             ret (dealer', pile')
        else dealer_turn pile' player dealer'
    end
  else
    let p_sum := sum_cards player in
    let d_sum := sum_cards dealer in
    let! _ := send_update (stand_result p_sum d_sum) None in
    ret (dealer, pile).

(** Does the body of the [for] loop end the function ([return]) or go on
    to the next round? *)
Inductive flow : Set := NextRound | Return.

(** One round, from the deal on a given draw pile. *)
Definition play_on (pile : list Card) : M flow :=
  let! '(p0, pile) := draw pile in
  let! '(p1, pile) := draw pile in
  let player := [p0; p1] in
  let! '(dealer_up, pile) := draw pile in
  let! '(dealer_down, pile) := draw pile in
  let dealer := [dealer_up; dealer_down] in
  let! _ := send_update RES_NOT_OVER (Some p0) in
  let! _ := send_update RES_NOT_OVER (Some p1) in
  let! _ := send_update RES_NOT_OVER (Some dealer_up) in
  let! t := player_turn pile player in
  match t with
  | BadDecision => ret Return
  | Busted _ _ => ret NextRound
  | Stood pile player =>
      let! _ := send_update RES_NOT_OVER (Some dealer_down) in
      let! _ := dealer_turn pile player dealer in
      ret NextRound
  end.

(** The body of [for round_idx in range(1, rounds + 1)]. *)
Definition play_round : M flow :=
  let! deck := fresh_shuffled_deck in
  play_on (rev deck).

(** Which line of the log the worker ends on. *)
Inductive verdict : Set :=
| InvalidRequest        (* "Invalid request; closing." *)
| InvalidDecision       (* "Invalid payload decision; closing." *)
| FinishedAllRounds.    (* "Finished all rounds; closing connection." *)

Fixpoint rounds_loop (n : nat) : M verdict :=
  match n with
  | O => ret FinishedAllRounds
  | S n' =>
      let! f := play_round in
      match f with
      | Return => ret InvalidDecision
      | NextRound => rounds_loop n'
      end
  end.

Definition clamp_rounds (requested : Z) : Z := Z.max 1 (Z.min 255 requested).

(** The [try] block of [handle_client]. *)
Definition handle_client_body : M verdict :=
  let! req_bytes := read_exact (calcsize REQUEST_STRUCT) in
  let! req := lift (unpack_request req_bytes) in
  match req with
  | None => ret InvalidRequest
  | Some req =>
      let rounds := clamp_rounds (rounds req) in
      rounds_loop (Z.to_nat rounds)
  end.

(** How a call of [handle_client] ends: it returns, or an exception was
    caught by [except (ConnectionError, OSError)] and logged, or an
    exception leaves the function. *)
Inductive ending : Set :=
| Returned (v : verdict)
| ConnectionErrorLogged (e : exn)
| Propagated (e : exn).

Definition caught (e : exn) : bool :=
  match e with
  | ConnectionError | OSError => true
  | _ => false
  end.

Definition close (w : world) : world :=
  World (inbuf w) (sent w) true (tape w) (drawn w).

(** [try: body / except (ConnectionError, OSError): log / finally: close]. *)
Definition try_worker (body : M verdict) (w : world) : ending * world :=
  let '(r, w') := body w in
  (match r with
   | Ok v => Returned v
   | Raise e => if caught e then ConnectionErrorLogged e else Propagated e
   end, close w').

Definition handle_client (w : world) : ending * world :=
  try_worker handle_client_body w.

(* ================================================================== *)
(** ** Vocabulary of the properties *)
(* ================================================================== *)

(** The elements of a [bytes] object are in 0..255. *)
Definition is_bytes (b : bytes) : Prop := Forall (fun x => 0 <= x < 256) b.

(** [scalar], as a test. *)
Definition scalarb (c : Z) : bool :=
  (0 <=? c) && (c <=? 0x10FFFF) && negb (is_surrogate c).

(** A name the wire format carries unchanged: a sequence of Unicode scalar
    values whose UTF-8 encoding has at most 32 bytes, none of them zero. *)
Definition valid_name (name : str) : bool :=
  forallb scalarb name
  && (length (utf8_encode_ignore name) <=? 32)%nat
  && forallb (fun x => negb (x =? 0)) (utf8_encode_ignore name).

(** What [unpack] gives back for a packed argument. *)
Definition canon (it : item) (v : value) : value :=
  match it, v with
  | fs n, VBytes b => VBytes (pack_s n b)
  | _, _ => v
  end.

(** The cookie and type tests of the decoders, on the first five bytes. *)
Definition header_ok (mtype : Z) (d : bytes) : bool :=
  negb (negb (be_int (take 4 d) =? MAGIC_COOKIE)
        || negb (be_int (take 1 (drop 4 d)) =? mtype)).

(** A frame is malformed for a kind when it is shorter than the kind's
    size, or does not start with the four cookie bytes, or its fifth byte
    is not the kind's type. *)
Definition malformed (f : list item) (mtype : Z) (data : bytes) : Prop :=
  (length data < calcsize f)%nat
  \/ take 4 data <> be_bytes 4 MAGIC_COOKIE
  \/ data !! 4%nat <> Some mtype.

(** A card of the standard deck. *)
Definition standard (c : Card) : Prop := 1 <= c.1 <= 13 /\ 0 <= c.2 <= 3.

(** Every card is worth at least 1. *)
Definition worth (c : Card) : Prop := 1 <= card_value c.1.

(** The world after one more buffer went out. *)
Definition emit (f : bytes) (w : world) : world :=
  World (inbuf w) (sent w ++ [f]) (closed w) (tape w) (drawn w).

(** The world after [n] bytes were read. *)
Definition consume (n : nat) (w : world) : world :=
  World (drop n (inbuf w)) (sent w) (closed w) (tape w) (drawn w).

(** The bytes of an Update. *)
Definition update_bytes (result rank suit : Z) : bytes :=
  be_bytes 4 MAGIC_COOKIE ++ be_bytes 1 MSG_PAYLOAD
  ++ be_bytes 1 (result mod 256) ++ be_bytes 2 (rank mod 65536)
  ++ be_bytes 1 (suit mod 256) ++ [].

(** The buffer [send_update] hands to [sendall]. *)
Definition frame (result : Z) (card : option Card) : bytes :=
  match card with
  | None => update_bytes result 0 0
  | Some (rank, suit) => update_bytes result rank suit
  end.

(** The frame that shows a card. *)
Definition card_frame (c : Card) : bytes := frame RES_NOT_OVER (Some c).

(** An Update that ends a round: its result byte is not "not over". *)
Definition is_terminal (f : bytes) : bool :=
  match unpack_server_update f with
  | Ok (Some (res, _, _)) => negb (res =? RES_NOT_OVER)
  | _ => false
  end.

(** How many frames of [fs] end a round. *)
Definition terminals (fs : list bytes) : nat :=
  length (List.filter is_terminal fs).

(** A frame the round engine sends: a card with result "not over", or a
    result without a card. *)
Definition engine_frame (f : bytes) : Prop :=
  (exists c, f = card_frame c) \/ (exists res, f = frame res None).

(** The hits so far left the hand at 21 or less. *)
Definition safe (hand hits : list Card) : Prop :=
  hits = [] \/ sum_cards (hand ++ hits) <= 21.

(* ================================================================== *)
(** ** More of the program *)
(* ================================================================== *)

(** *** [read_exact] over a socket that delivers in pieces *)

Module Socket.

(** A stream socket as [recv] sees it: the bytes still to come before the
    peer closes, and how much the network hands over at each call, one
    byte more than [portion t] at the call number [t]. *)
Record sock : Type := Sock {
  pending : bytes;
  portion : nat -> nat;
  calls : nat
}.

(** [sock.recv(k)]: what is ready, at most [k] bytes and at least one; the
    empty string once the peer has closed and nothing is left. *)
Definition recv (k : nat) (s : sock) : bytes * sock :=
  let m := Nat.min k (S (portion s (calls s))) in
  (take m (pending s), Sock (drop m (pending s)) (portion s) (S (calls s))).

(** The loop of [read_exact]; every turn adds a byte or more to [got], so
    [n] turns are enough ([fuel] counts them down). *)
Fixpoint read_exact_loop (fuel n : nat) (chunks : list bytes) (got : nat)
  (s : sock) : result bytes * sock :=
  if (got <? n)%nat then
    match fuel with
    | O => (Raise ConnectionError, s)
    | S fuel' =>
        let '(b, s') := recv (n - got) s in
        match b with
        | [] => (Raise ConnectionError, s')
        | _ :: _ =>
            read_exact_loop fuel' n (chunks ++ [b]) (got + length b) s'
        end
    end
  else (Ok (concat chunks), s).

Definition read_exact (n : nat) (s : sock) : result bytes * sock :=
  read_exact_loop n n [] 0%nat s.

End Socket.

(** *** Vocabulary for the traces of the worker *)

(** The result of a round that came to its end. *)
Definition final_result (res : Z) : Prop :=
  res = RES_TIE \/ res = RES_LOSS \/ res = RES_WIN.

(** A frame as a well-behaved dealer sends it: a card of the standard deck
    with result "not over", or a final result without a card. *)
Definition wire_frame (f : bytes) : Prop :=
  (exists c, standard c /\ f = card_frame c)
  \/ (exists res, final_result res /\ f = frame res None).

(** *** Discovery: server.py [udp_broadcaster], client.py [listen_for_offer] *)

(** [udp_broadcaster], as the datagrams it sends in [turns] turns of its
    loop (the stop event and the one-second sleep are left out). *)
Definition udp_broadcaster (turns : nat) (tcp_port : Z) (team_name : str)
  : result (list bytes) :=
  let* msg := pack_offer tcp_port team_name in
  Ok (replicate turns msg).

(** How listening ends: an offer was heard; or the datagrams ran out, and
    then a socket with a timeout raises it, while one without waits on. *)
Inductive heard : Type :=
| Heard (ip : str) (tcp_port : Z) (server_name : str)
| TimedOut
| Waiting.

(** [listen_for_offer] over the datagrams that arrive, each with the
    address of its sender; [recvfrom(2048)] keeps 2048 bytes of each. *)
Fixpoint listen_for_offer (timed : bool) (datagrams : list (bytes * str))
  : result heard :=
  match datagrams with
  | [] => Ok (if timed then TimedOut else Waiting)
  | (data, ip) :: later =>
      let* offer := unpack_offer (take 2048 data) in
      match offer with
      | Some offer => Ok (Heard ip (tcp_port offer) (server_name offer))
      | None => listen_for_offer timed later
      end
  end.

(** *** client.py: the player's side of a session *)

Module Client.

(** The player's side of the connection: the bytes the dealer sends before
    it closes ([incoming]), the buffers handed to [sendall] ([outgoing]),
    and the person at the console, as the decisions [prompt_decision] gets
    out of them, one after the other ([true] for a hit). *)
Record seat : Type := Seat {
  incoming : bytes;
  outgoing : list bytes;
  answers : nat -> bool;
  asked : nat
}.

Definition C (A : Type) : Type := seat -> result A * seat.

Definition ret {A} (a : A) : C A := fun s => (Ok a, s).
Definition raise {A} (e : exn) : C A := fun s => (Raise e, s).
Definition lift {A} (r : result A) : C A := fun s => (r, s).
Definition cbind {A B} (m : C A) (k : A -> C B) : C B :=
  fun s =>
    match m s with
    | (Ok a, s') => k a s'
    | (Raise e, s') => (Raise e, s')
    end.

Notation "'let+' x ':=' m 'in' k" := (cbind m (fun x => k))
  (at level 10, x name, m at level 100, k at level 200) : py_scope.
Notation "'let+' ' p ':=' m 'in' k" := (cbind m (fun p => k))
  (at level 10, p strict pattern, m at level 100, k at level 200) : py_scope.

Definition read_exact (n : nat) : C bytes :=
  fun s =>
    if decide (n <= length (incoming s))%nat
    then (Ok (take n (incoming s)),
          Seat (drop n (incoming s)) (outgoing s) (answers s) (asked s))
    else (Raise ConnectionError,
          Seat [] (outgoing s) (answers s) (asked s)).

Definition sendall (data : bytes) : C unit :=
  fun s =>
    (Ok tt, Seat (incoming s) (outgoing s ++ [data]) (answers s) (asked s)).

(** [prompt_decision] asks until the answer is a hit or a stand; what it
    returns is the next decision of the person. *)
Definition prompt_decision : C str :=
  fun s =>
    (Ok (if answers s (asked s) then Hittt else Stand),
     Seat (incoming s) (outgoing s) (answers s) (S (asked s))).

(** The helper [recv_update] of [play_session]. *)
Definition recv_update : C (Z * Z * Z) :=
  let+ b := read_exact (calcsize SERVER_PAYLOAD_STRUCT) in
  let+ parsed := lift (unpack_server_update b) in
  match parsed with
  | None => raise ConnectionError
  | Some parsed => ret parsed
  end.

(** The counters [wins], [losses], [ties]. *)
Record score : Type := Score { wins : Z; losses : Z; ties : Z }.

(** The count after a bust: a loss, a tie, and a win for anything else. *)
Definition count_bust (res : Z) (sc : score) : score :=
  if res =? RES_LOSS then Score (wins sc) (losses sc + 1) (ties sc)
  else if res =? RES_TIE then Score (wins sc) (losses sc) (ties sc + 1)
  else Score (wins sc + 1) (losses sc) (ties sc).

(** The count after the dealer's turn: a win, a loss, and a tie for
    anything else. *)
Definition count_final (res : Z) (sc : score) : score :=
  if res =? RES_WIN then Score (wins sc + 1) (losses sc) (ties sc)
  else if res =? RES_LOSS then Score (wins sc) (losses sc + 1) (ties sc)
  else Score (wins sc) (losses sc) (ties sc + 1).

(** The player's [while True] loop.  A turn that goes round again has read
    a frame, so there are no more turns than bytes to come: [fuel] counts
    them down from that number. *)
Fixpoint player_loop (fuel : nat) (player_sum : Z) (sc : score)
  : C (Z * score) :=
  let+ decision := prompt_decision in
  let+ data := lift (pack_client_decision decision) in
  let+ _ := sendall data in
  if str_eqb decision Stand then ret (player_sum, sc)
  else
    let+ '(res, rank, suit) := recv_update in
    let player_sum := player_sum + card_value rank in
    if 21 <? player_sum then
      let+ '(res, rank, suit) := recv_update in
      ret (player_sum, count_bust res sc)
    else
      match fuel with
      | O => raise ConnectionError
      | S fuel' => player_loop fuel' player_sum sc
      end.

(** The loop that follows the dealer's cards up to the result. *)
Fixpoint dealer_loop (fuel : nat) (dealer_sum : Z) (sc : score) : C score :=
  let+ '(res, rank, suit) := recv_update in
  if res =? RES_NOT_OVER then
    match fuel with
    | O => raise ConnectionError
    | S fuel' => dealer_loop fuel' (dealer_sum + card_value rank) sc
    end
  else ret (count_final res sc).

(** The number of bytes still to come. *)
Definition to_come : C nat := fun s => (Ok (length (incoming s)), s).

(** The body of [for r in range(1, rounds + 1)]. *)
Definition play_round (sc : score) : C score :=
  let player_sum := 0 in
  let dealer_sum := 0 in
  let+ '(res, rank, suit) := recv_update in
  let player_sum := player_sum + card_value rank in
  let+ '(res, rank, suit) := recv_update in
  let player_sum := player_sum + card_value rank in
  let+ '(res, rank, suit) := recv_update in
  let dealer_sum := dealer_sum + card_value rank in
  let+ fuel := to_come in
  let+ '(player_sum, sc) := player_loop fuel player_sum sc in
  if player_sum <=? 21 then
    let+ '(res, rank, suit) := recv_update in
    let dealer_sum := dealer_sum + card_value rank in
    let+ fuel := to_come in
    dealer_loop fuel dealer_sum sc
  else ret sc.

Fixpoint rounds_loop (n : nat) (sc : score) : C score :=
  match n with
  | O => ret sc
  | S n' =>
      let+ sc := play_round sc in
      rounds_loop n' sc
  end.

(** [play_session], once connected. *)
Definition play_session (rounds : Z) (team_name : str) : C score :=
  let+ data := lift (pack_request rounds team_name) in
  let+ _ := sendall data in
  rounds_loop (Z.to_nat rounds) (Score 0 0 0).

End Client.

(** *** Vocabulary for discovery and for the player's side *)

(** A datagram that is no offer: bytes that are too few, or do not start
    with the cookie, or have another type than an offer. *)
Definition junk (d : bytes * str) : Prop :=
  is_bytes d.1 /\ malformed OFFER_STRUCT MSG_OFFER d.1.

(** The rounds counted in a score. *)
Definition total (sc : Client.score) : Z :=
  Client.wins sc + Client.losses sc + Client.ties sc.

(** No counter of [sc'] is below its value in [sc]. *)
Definition grown (sc sc' : Client.score) : Prop :=
  Client.wins sc <= Client.wins sc'
  /\ Client.losses sc <= Client.losses sc'
  /\ Client.ties sc <= Client.ties sc'.

(** The frame of a decision of the person at the console. *)
Definition decision_frame (hit : bool) : bytes :=
  be_bytes 4 MAGIC_COOKIE ++ be_bytes 1 MSG_PAYLOAD
  ++ (if hit then Hittt else Stand).

(** The seat after [n] bytes were read. *)
Definition took (n : nat) (s : Client.seat) : Client.seat :=
  Client.Seat (drop n (Client.incoming s)) (Client.outgoing s)
    (Client.answers s) (Client.asked s).

(** What a piece of the session leaves behind: it sends only decisions,
    and reads on. *)
Definition decisions_only (s s' : Client.seat) : Prop :=
  exists ds, Client.outgoing s' = Client.outgoing s ++ (decision_frame <$> ds)
    /\ Client.asked s' = (Client.asked s + length ds)%nat
    /\ Client.answers s' = Client.answers s
    /\ (length (Client.incoming s') <= length (Client.incoming s))%nat.

(** The next [n] decisions of the person, from the [k]-th on, as the bytes
    the player's side sends for them. *)
Definition script (a : nat -> bool) (k n : nat) : bytes :=
  concat (decision_frame <$> (a <$> seq k n)).

(** The score the dealer's frames add up to: every frame whose result is
    not "not over" counts, a win as a win, a loss as a loss, anything else
    as a tie. *)
Definition tally (fs : list bytes) (sc : Client.score) : Client.score :=
  fold_left
    (fun sc f =>
       match unpack_server_update f with
       | Ok (Some (res, _, _)) =>
           if res =? RES_NOT_OVER then sc else Client.count_final res sc
       | _ => sc
       end)
    fs sc.

(* ================================================================== *)
(** ** Facts about the runtime model *)
(* ================================================================== *)

(** Arithmetic with the quotients and remainders of constants. *)
Ltac dlia := Z.div_mod_to_equations; lia.

(** Settle the boolean tests of the goal one after the other, dropping
    the branches the hypotheses exclude. *)
Ltac ztest :=
  repeat match goal with
  | |- context [?a <? ?b] =>
      destruct (Z.ltb_spec a b); [try (exfalso; dlia) | try (exfalso; dlia)]
  | |- context [?a <=? ?b] =>
      destruct (Z.leb_spec a b); [try (exfalso; dlia) | try (exfalso; dlia)]
  | |- context [?a =? ?b] =>
      destruct (Z.eqb_spec a b); [try (exfalso; dlia) | try (exfalso; dlia)]
  end.

(** A few runs of the codec. *)
Example pack_offer_sample :
  pack_offer 0x1234 (lit "AB"%string)
  = Ok ([0xAB; 0xCD; 0xDC; 0xBA; 2; 0x12; 0x34; 65; 66] ++ replicate 30 0).
Proof. reflexivity. Qed.

Example unpack_offer_sample :
  unpack_offer ([0xAB; 0xCD; 0xDC; 0xBA; 2; 0x12; 0x34; 65; 66] ++ replicate 30 0)
  = Ok (Some {| tcp_port := 0x1234; server_name := lit "AB"%string |}).
Proof. reflexivity. Qed.

(** A lone surrogate has no UTF-8 encoding: the encoder leaves it out. *)
Example lone_surrogate_dropped :
  utf8_encode_ignore [0x41; 0xD800; 0x42] = [0x41; 0x42].
Proof. reflexivity. Qed.

Example utf8_sample :
  utf8_encode_ignore [0x41; 0xE9; 0x20AC; 0xD800; 0x1F600]
  = [0x41; 0xC3; 0xA9; 0xE2; 0x82; 0xAC; 0xF0; 0x9F; 0x98; 0x80]
  /\ utf8_decode_ignore [0x41; 0xC3; 0xA9; 0xE2; 0x82; 0xAC; 0xF0; 0x9F; 0x98; 0x80]
     = [0x41; 0xE9; 0x20AC; 0x1F600]
  /\ utf8_decode_ignore [0x41; 0xE2; 0x82] = [0x41]
  /\ utf8_decode_ignore [0xE2; 0x41; 0x80; 0xC3; 0xA9] = [0x41; 0xE9].
Proof. repeat split; reflexivity. Qed.

Lemma Ok_inj {A} (a b : A) : Ok a = Ok b -> a = b.
Proof. congruence. Qed.

(** [Struct.unpack] undoes [Struct.pack]. *)
Section StructFacts.

Lemma be_bytes_length n v : length (be_bytes n v) = n.
Proof. induction n; simpl; congruence. Qed.

Lemma be_int_fold n v acc :
  fold_left (fun a x => a * 256 + x) (be_bytes n v) acc
  = acc * 256 ^ Z.of_nat n + v mod 256 ^ Z.of_nat n.
Proof.
  revert acc. induction n as [|n IH]; intros acc.
  - simpl. rewrite Z.mod_1_r. lia.
  - cbn [be_bytes fold_left]. rewrite IH.
    replace (Z.of_nat (S n)) with (Z.of_nat n + 1) by lia.
    rewrite Z.pow_add_r by lia. change (256 ^ 1) with 256.
    assert (0 < 256 ^ Z.of_nat n) by (apply Z.pow_pos_nonneg; lia).
    rewrite (Z.rem_mul_r v (256 ^ Z.of_nat n) 256) by lia. lia.
Qed.

Lemma be_int_be_bytes n v :
  0 <= v < 256 ^ Z.of_nat n -> be_int (be_bytes n v) = v.
Proof.
  intros Hv. unfold be_int. rewrite be_int_fold, Z.mod_small; lia.
Qed.

Lemma pack_int_ok n z :
  0 <= z < 256 ^ Z.of_nat n -> pack_int n z = Ok (be_bytes n z).
Proof.
  intros [H0 H1]. unfold pack_int.
  apply Z.leb_le in H0. apply Z.ltb_lt in H1. now rewrite H0, H1.
Qed.

Lemma pack_int_inv n z b :
  pack_int n z = Ok b -> 0 <= z < 256 ^ Z.of_nat n /\ b = be_bytes n z.
Proof.
  unfold pack_int. intros H.
  destruct (Z.leb_spec 0 z); destruct (Z.ltb_spec z (256 ^ Z.of_nat n));
    simpl in H; inversion H; auto.
Qed.

Lemma pack_s_length n b : length (pack_s n b) = n.
Proof.
  unfold pack_s. rewrite length_app, length_take, length_replicate. lia.
Qed.

Lemma pack_s_exact n b : length b = n -> pack_s n b = b.
Proof.
  intros <-. unfold pack_s.
  rewrite firstn_all, Nat.sub_diag. simpl. apply app_nil_r.
Qed.

Lemma pack_length f : forall vs b,
  Struct.pack f vs = Ok b -> length b = calcsize f.
Proof.
  induction f as [|it f IH]; intros vs b H.
  - destruct vs; inversion H. reflexivity.
  - destruct vs as [|v vs]; [destruct it; discriminate|].
    destruct it, v; cbn [Struct.pack] in H; try discriminate;
      try (destruct (pack_int _ z) as [here|] eqn:Hh; cbn [Py.bind] in H;
           [|discriminate]; apply pack_int_inv in Hh as [_ ->]);
      destruct (Struct.pack f vs) as [rest|] eqn:Hr; cbn [Py.bind] in H;
      try discriminate; apply Ok_inj in H; subst b;
      rewrite length_app, ?be_bytes_length, ?pack_s_length, (IH _ _ Hr);
      reflexivity.
Qed.

Lemma parse_pack f : forall vs b,
  Struct.pack f vs = Ok b -> parse f b = zip_with canon f vs.
Proof.
  induction f as [|it f IH]; intros vs b H.
  - destruct vs; inversion H. reflexivity.
  - destruct vs as [|v vs]; [destruct it; discriminate|].
    destruct it, v; cbn [Struct.pack] in H; try discriminate;
      try (destruct (pack_int _ z) as [here|] eqn:Hh; cbn [Py.bind] in H;
           [|discriminate]; apply pack_int_inv in Hh as [Hz ->]);
      destruct (Struct.pack f vs) as [rest|] eqn:Hr; cbn [Py.bind] in H;
      try discriminate; apply Ok_inj in H; subst b;
      cbn [parse zip_with canon width];
      rewrite ?take_app_length', ?drop_app_length'
        by (rewrite ?be_bytes_length, ?pack_s_length; reflexivity);
      rewrite ?be_int_be_bytes by exact Hz;
      f_equal; eauto.
Qed.

Lemma unpack_pack f vs b :
  Struct.pack f vs = Ok b -> Struct.unpack f b = Ok (zip_with canon f vs).
Proof.
  intros H. unfold Struct.unpack.
  rewrite (pack_length _ _ _ H), decide_True by reflexivity.
  now rewrite (parse_pack _ _ _ H).
Qed.

(** On a buffer of the right size [unpack] does not raise. *)
Lemma unpack_sized f data :
  (calcsize f <= length data)%nat ->
  Struct.unpack f (take (calcsize f) data) = Ok (parse f (take (calcsize f) data)).
Proof.
  intros H. unfold Struct.unpack.
  rewrite decide_True; [reflexivity|]. rewrite length_take. lia.
Qed.

End StructFacts.

(** The text codecs on well-formed input. *)
Section CodecFacts.

Lemma utf8_decode_encode_char c rest :
  scalar c ->
  utf8_decode_ignore (utf8_encode_char c ++ rest) = c :: utf8_decode_ignore rest.
Proof.
  intros [Hr Hs]. unfold utf8_encode_char.
  destruct (Z.ltb_spec c 0x80); [|destruct (Z.ltb_spec c 0x800);
    [|destruct (Z.ltb_spec c 0x10000)]];
    cbn [app utf8_decode_ignore]; unfold is_cont; ztest;
    cbn [negb andb orb]; ztest; cbn [negb andb orb]; f_equal; dlia.
Qed.

Lemma utf8_decode_encode s :
  Forall scalar s -> utf8_decode_ignore (utf8_encode_ignore s) = s.
Proof.
  induction 1 as [|c s Hc _ IH]; [reflexivity|].
  cbn [utf8_encode_ignore].
  replace (is_surrogate c) with false
    by (destruct Hc; unfold is_surrogate; ztest; reflexivity || lia).
  rewrite utf8_decode_encode_char by exact Hc. now rewrite IH.
Qed.

Lemma before_first_zero_padded b n :
  Forall (fun x => x <> 0) b ->
  before_first_zero (b ++ replicate n 0) = b.
Proof.
  induction 1 as [|x b Hx _ IH]; simpl.
  - destruct n; reflexivity.
  - destruct (Z.eqb_spec x 0); [contradiction|]. now rewrite IH.
Qed.

Lemma ascii_decode_ignore_full b s :
  ascii_decode_ignore b = s -> length s = length b -> b = s.
Proof.
  intros <- Hl. unfold ascii_decode_ignore in *.
  induction b as [|x b IH]; [reflexivity|].
  rewrite filter_cons in *. destruct (decide (x < 128)).
  - simpl in Hl. f_equal. apply IH. lia.
  - pose proof (length_filter (fun x => x < 128) b). simpl in Hl. lia.
Qed.

End CodecFacts.

(* ================================================================== *)
(** ** The frame codec *)
(* ================================================================== *)

(** What each encoder produces, and what its decoder makes of it. *)
Section CodecRoundTrip.

Lemma scalarb_scalar c : scalarb c = true -> scalar c.
Proof.
  unfold scalarb, is_surrogate, scalar. intros H.
  apply andb_prop in H as [H H3]. apply andb_prop in H as [H1 H2].
  apply Z.leb_le in H1, H2. split; [lia|].
  destruct (Z.leb_spec 0xD800 c); destruct (Z.leb_spec c 0xDFFF);
    simpl in H3; try discriminate; lia.
Qed.

Lemma fixed_name_length name : length (_fixed_name_bytes name) = 32%nat.
Proof.
  unfold _fixed_name_bytes.
  rewrite length_app, length_replicate, length_take. lia.
Qed.

Lemma fixed_name_round_trip name :
  valid_name name = true ->
  _decode_fixed_name (pack_s 32 (_fixed_name_bytes name)) = name.
Proof.
  unfold valid_name. intros H.
  apply andb_prop in H as [H Hz]. apply andb_prop in H as [Hs Hl].
  apply Nat.leb_le in Hl.
  rewrite pack_s_exact by apply fixed_name_length.
  unfold _fixed_name_bytes, _decode_fixed_name.
  rewrite take_ge by exact Hl.
  rewrite before_first_zero_padded.
  - apply utf8_decode_encode. apply List.Forall_forall. intros c Hc.
    apply scalarb_scalar. rewrite forallb_forall in Hs. now apply Hs.
  - apply List.Forall_forall. intros x Hx. rewrite forallb_forall in Hz.
    specialize (Hz x Hx). now destruct (Z.eqb_spec x 0).
Qed.

(** Decoding what [Struct.pack] produced: the size test passes and the
    fields come back. *)
Lemma unpack_take_pack f vs b :
  Struct.pack f vs = Ok b ->
  ~ (length b < calcsize f)%nat
  /\ Struct.unpack f (take (calcsize f) b) = Ok (zip_with canon f vs).
Proof.
  intros H. pose proof (pack_length _ _ _ H) as Hl. split; [lia|].
  rewrite take_ge by lia. now apply unpack_pack.
Qed.

Lemma land_byte z : 0 <= z <= 255 -> Z.land z 0xFF = z.
Proof.
  intros H. change 0xFF with (Z.ones 8).
  rewrite Z.land_ones by lia. apply Z.mod_small. lia.
Qed.

Lemma land_short z : 0 <= z <= 65535 -> Z.land z 0xFFFF = z.
Proof.
  intros H. change 0xFFFF with (Z.ones 16).
  rewrite Z.land_ones by lia. apply Z.mod_small. lia.
Qed.

Lemma pack_offer_ok port name :
  0 <= port <= 65535 ->
  pack_offer port name
  = Ok (be_bytes 4 MAGIC_COOKIE ++ be_bytes 1 MSG_OFFER ++ be_bytes 2 port
        ++ pack_s 32 (_fixed_name_bytes name) ++ []).
Proof.
  intros H. unfold pack_offer, OFFER_STRUCT. cbn [Struct.pack width].
  rewrite (pack_int_ok 2 port) by (simpl; lia). reflexivity.
Qed.

Lemma pack_request_ok r name :
  pack_request r name
  = Ok (be_bytes 4 MAGIC_COOKIE ++ be_bytes 1 MSG_REQUEST
        ++ be_bytes 1 (r mod 256)
        ++ pack_s 32 (_fixed_name_bytes name) ++ []).
Proof.
  unfold pack_request, REQUEST_STRUCT. cbn [Struct.pack width].
  change 0xFF with (Z.ones 8). rewrite Z.land_ones by lia.
  change (2 ^ 8) with 256.
  rewrite (pack_int_ok 1 (r mod 256)) by (simpl; dlia). reflexivity.
Qed.

Lemma pack_server_update_ok result rank suit :
  pack_server_update result rank suit
  = Ok (be_bytes 4 MAGIC_COOKIE ++ be_bytes 1 MSG_PAYLOAD
        ++ be_bytes 1 (result mod 256) ++ be_bytes 2 (rank mod 65536)
        ++ be_bytes 1 (suit mod 256) ++ []).
Proof.
  unfold pack_server_update, SERVER_PAYLOAD_STRUCT. cbn [Struct.pack width].
  change 0xFF with (Z.ones 8). change 0xFFFF with (Z.ones 16).
  rewrite !Z.land_ones by lia.
  change (2 ^ 8) with 256. change (2 ^ 16) with 65536.
  rewrite (pack_int_ok 1 (result mod 256)) by (simpl; dlia).
  rewrite (pack_int_ok 2 (rank mod 65536)) by (simpl; dlia).
  rewrite (pack_int_ok 1 (suit mod 256)) by (simpl; dlia). reflexivity.
Qed.

Lemma unpack_offer_pack port name b :
  pack_offer port name = Ok b ->
  unpack_offer b
  = Ok (Some {| tcp_port := port;
                server_name :=
                  _decode_fixed_name (pack_s 32 (_fixed_name_bytes name)) |}).
Proof.
  intros H. unfold unpack_offer.
  destruct (unpack_take_pack _ _ _ H) as [Hl ->].
  rewrite decide_False by exact Hl. reflexivity.
Qed.

Lemma unpack_request_pack r name b :
  pack_request r name = Ok b ->
  unpack_request b
  = Ok (Some {| rounds := Z.land r 0xFF;
                client_name :=
                  _decode_fixed_name (pack_s 32 (_fixed_name_bytes name)) |}).
Proof.
  intros H. unfold unpack_request.
  destruct (unpack_take_pack _ _ _ H) as [Hl ->].
  rewrite decide_False by exact Hl. reflexivity.
Qed.

Lemma unpack_server_update_pack result rank suit b :
  pack_server_update result rank suit = Ok b ->
  unpack_server_update b
  = Ok (Some (Z.land result 0xFF, Z.land rank 0xFFFF, Z.land suit 0xFF)).
Proof.
  intros H. unfold unpack_server_update.
  destruct (unpack_take_pack _ _ _ H) as [Hl ->].
  rewrite decide_False by exact Hl. reflexivity.
Qed.

End CodecRoundTrip.

(** C1. Round trip of the four frame kinds: for a port in 0..65535, a
    round count in 0..255, an Update with result in 0..255, rank in
    0..65535 and suit in 0..255, one of the two decision tokens, and names
    that are valid, encoding succeeds and decoding the bytes gives the
    fields back. *)
Theorem codec_round_trip :
  (forall port name,
     0 <= port <= 65535 -> valid_name name = true ->
     exists b, pack_offer port name = Ok b
       /\ unpack_offer b
          = Ok (Some {| tcp_port := port; server_name := name |}))
  /\ (forall r name,
     0 <= r <= 255 -> valid_name name = true ->
     exists b, pack_request r name = Ok b
       /\ unpack_request b
          = Ok (Some {| rounds := r; client_name := name |}))
  /\ (forall d,
     d = Hittt \/ d = Stand ->
     exists b, pack_client_decision d = Ok b
       /\ unpack_client_decision b = Ok (Some d))
  /\ (forall result rank suit,
     0 <= result <= 255 -> 0 <= rank <= 65535 -> 0 <= suit <= 255 ->
     exists b, pack_server_update result rank suit = Ok b
       /\ unpack_server_update b = Ok (Some (result, rank, suit))).
Proof.
  split; [|split; [|split]].
  - intros port name Hp Hn. eexists. split; [now apply pack_offer_ok|].
    erewrite unpack_offer_pack by now apply pack_offer_ok.
    now rewrite fixed_name_round_trip.
  - intros r name Hr Hn. eexists. split; [apply pack_request_ok|].
    erewrite unpack_request_pack by apply pack_request_ok.
    now rewrite fixed_name_round_trip, land_byte.
  - intros d [-> | ->]; eexists; split; reflexivity.
  - intros result rank suit H1 H2 H3. eexists.
    split; [apply pack_server_update_ok|].
    erewrite unpack_server_update_pack by apply pack_server_update_ok.
    now rewrite !land_byte, land_short.
Qed.

Lemma codec_round_trip_witness :
  (exists b, pack_offer 8080 (lit "dealer"%string) = Ok b
     /\ unpack_offer b
        = Ok (Some {| tcp_port := 8080; server_name := lit "dealer"%string |}))
  /\ (exists b, pack_request 7 [0x4A; 0xE9; 0x20AC; 0x1F600] = Ok b
     /\ unpack_request b
        = Ok (Some {| rounds := 7;
                      client_name := [0x4A; 0xE9; 0x20AC; 0x1F600] |}))
  /\ (exists b, pack_client_decision Stand = Ok b
     /\ unpack_client_decision b = Ok (Some Stand))
  /\ (exists b, pack_server_update 3 13 2 = Ok b
     /\ unpack_server_update b = Ok (Some (3, 13, 2))).
Proof.
  destruct codec_round_trip as (Ho & Hr & Hd & Hu).
  split; [|split; [|split]].
  - apply Ho; [lia | reflexivity].
  - apply Hr; [lia | reflexivity].
  - apply Hd. right. reflexivity.
  - apply Hu; lia.
Defined.

(** The decoders, without the detour through [Struct.unpack]. *)
Section Decoding.

Lemma unpack_offer_eq data :
  unpack_offer data =
  if decide (length data < 39)%nat then Ok None
  else let d := take 39 data in
    if header_ok MSG_OFFER d
    then Ok (Some {| tcp_port := be_int (take 2 (drop 5 d));
                     server_name := _decode_fixed_name (take 32 (drop 7 d)) |})
    else Ok None.
Proof.
  unfold unpack_offer. change (calcsize OFFER_STRUCT) with 39%nat.
  destruct (decide (length data < 39)%nat); [reflexivity|].
  change 39%nat with (calcsize OFFER_STRUCT) at 1 2.
  rewrite unpack_sized by (change (calcsize OFFER_STRUCT) with 39%nat; lia).
  cbn [OFFER_STRUCT parse width Py.bind]. rewrite !drop_drop.
  unfold header_ok. cbn [Nat.add calcsize fmap list_fmap sum_list width].
  now destruct (negb _ || negb _).
Qed.

Lemma unpack_request_eq data :
  unpack_request data =
  if decide (length data < 38)%nat then Ok None
  else let d := take 38 data in
    if header_ok MSG_REQUEST d
    then Ok (Some {| rounds := be_int (take 1 (drop 5 d));
                     client_name := _decode_fixed_name (take 32 (drop 6 d)) |})
    else Ok None.
Proof.
  unfold unpack_request. change (calcsize REQUEST_STRUCT) with 38%nat.
  destruct (decide (length data < 38)%nat); [reflexivity|].
  change 38%nat with (calcsize REQUEST_STRUCT) at 1 2.
  rewrite unpack_sized by (change (calcsize REQUEST_STRUCT) with 38%nat; lia).
  cbn [REQUEST_STRUCT parse width Py.bind]. rewrite !drop_drop.
  unfold header_ok. cbn [Nat.add calcsize fmap list_fmap sum_list width].
  now destruct (negb _ || negb _).
Qed.

Lemma unpack_client_decision_eq data :
  unpack_client_decision data =
  if decide (length data < 10)%nat then Ok None
  else let d := take 10 data in
    if header_ok MSG_PAYLOAD d
    then let s := ascii_decode_ignore (take 5 (drop 5 d)) in
         Ok (if is_decision s then Some s else None)
    else Ok None.
Proof.
  unfold unpack_client_decision.
  change (calcsize CLIENT_PAYLOAD_STRUCT) with 10%nat.
  destruct (decide (length data < 10)%nat); [reflexivity|].
  change 10%nat with (calcsize CLIENT_PAYLOAD_STRUCT) at 1 2.
  rewrite unpack_sized
    by (change (calcsize CLIENT_PAYLOAD_STRUCT) with 10%nat; lia).
  cbn [CLIENT_PAYLOAD_STRUCT parse width Py.bind]. rewrite !drop_drop.
  unfold header_ok. cbn [Nat.add calcsize fmap list_fmap sum_list width].
  now destruct (negb _ || negb _).
Qed.

Lemma unpack_server_update_eq data :
  unpack_server_update data =
  if decide (length data < 9)%nat then Ok None
  else let d := take 9 data in
    if header_ok MSG_PAYLOAD d
    then Ok (Some (be_int (take 1 (drop 5 d)), be_int (take 2 (drop 6 d)),
                   be_int (take 1 (drop 8 d))))
    else Ok None.
Proof.
  unfold unpack_server_update.
  change (calcsize SERVER_PAYLOAD_STRUCT) with 9%nat.
  destruct (decide (length data < 9)%nat); [reflexivity|].
  change 9%nat with (calcsize SERVER_PAYLOAD_STRUCT) at 1 2.
  rewrite unpack_sized
    by (change (calcsize SERVER_PAYLOAD_STRUCT) with 9%nat; lia).
  cbn [SERVER_PAYLOAD_STRUCT parse width Py.bind]. rewrite !drop_drop.
  unfold header_ok. cbn [Nat.add calcsize fmap list_fmap sum_list width].
  now destruct (negb _ || negb _).
Qed.

Lemma header_ok_sound mtype data n :
  is_bytes data -> (5 <= n)%nat -> (5 <= length data)%nat ->
  header_ok mtype (take n data) = true ->
  take 4 data = be_bytes 4 MAGIC_COOKIE /\ data !! 4%nat = Some mtype.
Proof.
  intros Hb Hn Hl. do 5 (destruct n as [|n]; [lia|]).
  destruct data as [|b0 [|b1 [|b2 [|b3 [|b4 rest]]]]];
    try (simpl in Hl; lia).
  do 4 (apply Forall_cons in Hb as [? Hb]).
  unfold header_ok, be_int, MAGIC_COOKIE. cbn [firstn skipn fold_left].
  intros Hk.
  apply negb_true_iff, orb_false_iff in Hk as [Hc Ht].
  apply negb_false_iff, Z.eqb_eq in Hc, Ht.
  simpl in Ht. split; [|cbn; f_equal; lia].
  change (be_bytes 4 2882395322) with [171; 205; 220; 186].
  assert (b0 = 171 /\ b1 = 205 /\ b2 = 220 /\ b3 = 186) as (-> & -> & -> & ->)
    by lia.
  reflexivity.
Qed.

Lemma malformed_header f mtype data n :
  is_bytes data -> (5 <= n)%nat -> n = calcsize f ->
  malformed f mtype data -> ~ (length data < n)%nat ->
  header_ok mtype (take n data) = false.
Proof.
  intros Hb Hn -> [Hs | Hm] Hl; [lia|].
  destruct (header_ok mtype _) eqn:E; [|reflexivity].
  apply header_ok_sound in E as [E1 E2]; [|assumption || lia..].
  destruct Hm; contradiction.
Qed.

End Decoding.

(** C2. No decoder raises, whatever the buffer; and on a buffer that is
    too short for the kind, or does not start with the bytes of the magic
    cookie 0xABCDDCBA, or carries another type byte, each decoder returns
    None. *)
Theorem decode_total_and_rejects (data : bytes) :
  ((exists o, unpack_offer data = Ok o)
   /\ (exists o, unpack_request data = Ok o)
   /\ (exists o, unpack_client_decision data = Ok o)
   /\ (exists o, unpack_server_update data = Ok o))
  /\ (is_bytes data ->
      (malformed OFFER_STRUCT MSG_OFFER data -> unpack_offer data = Ok None)
      /\ (malformed REQUEST_STRUCT MSG_REQUEST data ->
          unpack_request data = Ok None)
      /\ (malformed CLIENT_PAYLOAD_STRUCT MSG_PAYLOAD data ->
          unpack_client_decision data = Ok None)
      /\ (malformed SERVER_PAYLOAD_STRUCT MSG_PAYLOAD data ->
          unpack_server_update data = Ok None)).
Proof.
  split.
  - rewrite unpack_offer_eq, unpack_request_eq, unpack_client_decision_eq,
      unpack_server_update_eq.
    repeat split;
      repeat (match goal with |- context [if ?c then _ else _] => destruct c end;
              cbn zeta); eauto.
  - intros Hb.
    rewrite unpack_offer_eq, unpack_request_eq, unpack_client_decision_eq,
      unpack_server_update_eq.
    repeat split; intros Hm;
      (destruct (decide _) as [|Hl]; [reflexivity|]); cbn zeta;
      match type of Hm with
      | malformed ?f ?t _ =>
          let n := eval vm_compute in (calcsize f) in
          rewrite (malformed_header f t data n Hb ltac:(lia) eq_refl Hm Hl)
      end; reflexivity.
Qed.

Lemma decode_total_and_rejects_witness :
  unpack_offer [0xAB; 0xCD; 0xDC] = Ok None
  /\ unpack_request (0xAB :: 0xCD :: 0xDC :: 0xBB :: 3 :: replicate 33 65)
     = Ok None
  /\ unpack_client_decision [0xAB; 0xCD; 0xDC; 0xBA; 3; 83; 116; 97; 110; 100]
     = Ok None
  /\ unpack_server_update [0xAB; 0xCD; 0xDC; 0xBA; 2; 0; 0; 1; 0] = Ok None.
Proof.
  split; [|split; [|split]].
  - apply (decode_total_and_rejects [0xAB; 0xCD; 0xDC]).
    + repeat constructor; lia.
    + left. vm_compute. lia.
  - apply (decode_total_and_rejects
             (0xAB :: 0xCD :: 0xDC :: 0xBB :: 3 :: replicate 33 65)).
    + repeat constructor; lia.
    + right. left. vm_compute. discriminate.
  - apply (decode_total_and_rejects
             [0xAB; 0xCD; 0xDC; 0xBA; 3; 83; 116; 97; 110; 100]).
    + repeat constructor; lia.
    + right. right. vm_compute. discriminate.
  - apply (decode_total_and_rejects [0xAB; 0xCD; 0xDC; 0xBA; 2; 0; 0; 1; 0]).
    + repeat constructor; lia.
    + right. right. vm_compute. discriminate.
Defined.

(** C3. On a 10-byte frame with the right cookie and type, the decoder
    returns the token when the five token bytes are exactly those of
    "Hittt" or of "Stand", and None for every other token. *)
Theorem decision_tokens_only (data : bytes) :
  length data = 10%nat ->
  take 4 data = be_bytes 4 MAGIC_COOKIE ->
  data !! 4%nat = Some MSG_PAYLOAD ->
  ((drop 5 data = Hittt \/ drop 5 data = Stand) ->
   unpack_client_decision data = Ok (Some (drop 5 data)))
  /\ (drop 5 data <> Hittt -> drop 5 data <> Stand ->
      unpack_client_decision data = Ok None).
Proof.
  intros Hl Hm Ht. rewrite unpack_client_decision_eq.
  rewrite decide_False by lia. rewrite take_ge by lia. cbn zeta.
  do 10 (destruct data as [|? data]; [discriminate|]).
  destruct data; [|discriminate].
  injection Hm as -> -> -> ->. injection Ht as ->.
  change (header_ok _ _) with true. cbn [take drop].
  split.
  - intros [-> | ->]; reflexivity.
  - intros H1 H2.
    destruct (is_decision _) eqn:E; [exfalso|reflexivity].
    unfold is_decision, str_eqb in E.
    apply orb_true_iff in E as [E | E]; apply bool_decide_eq_true in E;
      apply ascii_decode_ignore_full in E; (reflexivity || congruence).
Qed.

Lemma decision_tokens_only_witness :
  unpack_client_decision [0xAB; 0xCD; 0xDC; 0xBA; 4; 72; 105; 116; 116; 116]
  = Ok (Some Hittt)
  /\ unpack_client_decision [0xAB; 0xCD; 0xDC; 0xBA; 4; 72; 105; 116; 116; 33]
     = Ok None.
Proof.
  split.
  - apply (decision_tokens_only
             [0xAB; 0xCD; 0xDC; 0xBA; 4; 72; 105; 116; 116; 116]);
      try reflexivity. left. reflexivity.
  - apply (decision_tokens_only
             [0xAB; 0xCD; 0xDC; 0xBA; 4; 72; 105; 116; 116; 33]);
      try reflexivity; vm_compute; discriminate.
Defined.

(** C10. The encoder puts the requested round count modulo 256 in the
    rounds byte, and never refuses a count: 300 goes out as 44. *)
Theorem pack_request_wraps (r : Z) (name : str) :
  exists b, pack_request r name = Ok b
    /\ b !! 5%nat = Some (r mod 256)
    /\ (exists n, unpack_request b
                  = Ok (Some {| rounds := r mod 256; client_name := n |}))
    /\ (r = 300 -> b !! 5%nat = Some 44).
Proof.
  eexists. split; [apply pack_request_ok|].
  split; [simpl; f_equal; rewrite Z.div_1_r; apply Z.mod_mod; lia|]. split.
  - erewrite unpack_request_pack by apply pack_request_ok.
    change 0xFF with (Z.ones 8). rewrite Z.land_ones by lia. eauto.
  - intros ->. reflexivity.
Qed.

Lemma pack_request_wraps_witness :
  exists b, pack_request 300 (lit "player"%string) = Ok b
    /\ b !! 5%nat = Some 44.
Proof.
  destruct (pack_request_wraps 300 (lit "player"%string)) as (b & H & _ & _ & H44).
  exists b. split; [exact H | apply H44; reflexivity].
Defined.

(* ================================================================== *)
(** ** The deck *)
(* ================================================================== *)

Section Deck.

Lemma randbelow_run n w :
  Random.randbelow n w
  = (Ok (tape w (drawn w) mod n)%nat,
     World (inbuf w) (sent w) (closed w) (tape w) (S (drawn w))).
Proof. reflexivity. Qed.

(** A shuffle returns a permutation of its argument and leaves the socket
    alone. *)
Lemma shuffle_from_perm {A} k : forall (x : list A) w,
  (k < length x)%nat ->
  exists x' w', Random.shuffle_from k x w = (Ok x', w')
    /\ x' ≡ₚ x /\ inbuf w' = inbuf w /\ sent w' = sent w
    /\ closed w' = closed w.
Proof.
  induction k as [|k IH]; intros x w Hk.
  - exists x, w. repeat split; reflexivity.
  - cbn [Random.shuffle_from]. unfold mbind. rewrite randbelow_run.
    set (j := (tape w (drawn w) mod (S k + 1))%nat).
    assert (j < S k + 1)%nat as Hj by (apply Nat.mod_upper_bound; lia).
    destruct (lookup_lt_is_Some_2 x j ltac:(lia)) as [xj Hxj].
    destruct (lookup_lt_is_Some_2 x (S k) Hk) as [xi Hxi].
    rewrite Hxj, Hxi.
    destruct (IH (<[j:=xi]> (<[S k:=xj]> x))
                (World (inbuf w) (sent w) (closed w) (tape w) (S (drawn w))))
      as (x' & w' & -> & Hp & Hin & Hs & Hc).
    { rewrite !length_insert. lia. }
    exists x', w'. repeat split; try assumption.
    rewrite Hp. now apply Permutation_insert_swap.
Qed.

Lemma fresh_shuffled_deck_perm w :
  exists deck w', fresh_shuffled_deck w = (Ok deck, w')
    /\ deck ≡ₚ ordered_deck /\ inbuf w' = inbuf w /\ sent w' = sent w
    /\ closed w' = closed w.
Proof.
  unfold fresh_shuffled_deck, Random.shuffle.
  apply shuffle_from_perm. vm_compute. lia.
Qed.

Lemma ordered_deck_elem c : c ∈ ordered_deck <-> standard c.
Proof.
  unfold ordered_deck, standard. destruct c as [rank suit].
  cbn [fst snd]. split.
  - intros H. apply list_elem_of_bind in H as (s & H & Hs).
    apply list_elem_of_bind in H as (r & H & Hr).
    apply list_elem_of_singleton in H. injection H as -> ->.
    apply elem_of_seqZ in Hs, Hr. lia.
  - intros [Hr Hs]. apply list_elem_of_bind. exists suit. split.
    + apply list_elem_of_bind. exists rank. split.
      * apply list_elem_of_singleton. reflexivity.
      * apply elem_of_seqZ. lia.
    + apply elem_of_seqZ. lia.
Qed.

Lemma ordered_deck_NoDup : NoDup ordered_deck.
Proof.
  apply (bool_decide_eq_true_1 (NoDup ordered_deck)). vm_compute. reflexivity.
Qed.

End Deck.

(** C8. Whatever the random source gives, [fresh_shuffled_deck] returns a
    deck of exactly 52 cards without a repeat, and a pair is in it exactly
    when its rank is in 1..13 and its suit in 0..3. *)
Theorem fresh_deck_is_standard (w : world) :
  exists deck w', fresh_shuffled_deck w = (Ok deck, w')
    /\ length deck = 52%nat
    /\ NoDup deck
    /\ (forall rank suit,
          (rank, suit) ∈ deck <-> (1 <= rank <= 13 /\ 0 <= suit <= 3)).
Proof.
  destruct (fresh_shuffled_deck_perm w) as (deck & w' & H & Hp & _).
  exists deck, w'. split; [exact H|]. split; [|split].
  - now rewrite Hp.
  - rewrite Hp. apply ordered_deck_NoDup.
  - intros rank suit. rewrite Hp. apply (ordered_deck_elem (rank, suit)).
Qed.

(* ================================================================== *)
(** ** The round engine *)
(* ================================================================== *)

(** Running the loops of the round one turn at a time. *)
Section RoundEngine.

Lemma send_update_run result card w :
  send_update result card w = (Ok tt, emit (frame result card) w).
Proof.
  unfold send_update, mbind, lift, frame.
  destruct card as [[rank suit]|]; now rewrite pack_server_update_ok.
Qed.

Lemma unpack_client_decision_total data :
  exists o, unpack_client_decision data = Ok o.
Proof.
  rewrite unpack_client_decision_eq.
  destruct (decide _); [eauto|]. cbn zeta. destruct (header_ok _ _); eauto.
Qed.

Lemma unpack_request_total data : exists o, unpack_request data = Ok o.
Proof.
  rewrite unpack_request_eq.
  destruct (decide _); [eauto|]. cbn zeta. destruct (header_ok _ _); eauto.
Qed.

(** One turn of the player's loop. *)
Lemma player_turn_step pile player w :
  player_turn pile player w =
  if decide (10 <= length (inbuf w))%nat then
    let w1 := consume 10 w in
    match unpack_client_decision (take 10 (inbuf w)) with
    | Raise e => (Raise e, w1)
    | Ok None => (Ok BadDecision, w1)
    | Ok (Some d) =>
        if str_eqb d Stand then (Ok (Stood pile player), w1)
        else
          match pile with
          | [] => (Raise IndexError, w1)
          | c :: pile' =>
              let w2 := emit (card_frame c) w1 in
              if 21 <? sum_cards (player ++ [c])
              then (Ok (Busted pile' (player ++ [c])),
                    emit (frame RES_LOSS None) w2)
              else player_turn pile' (player ++ [c]) w2
          end
    end
  else (Raise ConnectionError,
        World [] (sent w) (closed w) (tape w) (drawn w)).
Proof.
  destruct pile as [|c pile']; cbn [player_turn]; unfold mbind, read_exact;
    change (calcsize CLIENT_PAYLOAD_STRUCT) with 10%nat;
    (destruct (decide _); [|reflexivity]); unfold lift; cbn zeta;
    fold (consume 10 w);
    destruct (unpack_client_decision _) as [[d|]|e]; try reflexivity;
    destruct (str_eqb d Stand); try reflexivity.
  rewrite send_update_run. fold (card_frame c).
  destruct (21 <? _); [|reflexivity].
  rewrite send_update_run. reflexivity.
Qed.

(** One turn of the dealer's loop. *)
Lemma dealer_turn_step pile player dealer w :
  dealer_turn pile player dealer w =
  if sum_cards dealer <? 17 then
    match pile with
    | [] => (Raise IndexError, w)
    | c :: pile' =>
        let w1 := emit (card_frame c) w in
        if 21 <? sum_cards (dealer ++ [c])
        then (Ok (dealer ++ [c], pile'), emit (frame RES_WIN None) w1)
        else dealer_turn pile' player (dealer ++ [c]) w1
    end
  else (Ok (dealer, pile),
        emit (frame (stand_result (sum_cards player) (sum_cards dealer)) None) w).
Proof.
  destruct pile as [|c pile']; cbn [dealer_turn]; unfold mbind;
    destruct (sum_cards dealer <? 17); try reflexivity;
    rewrite send_update_run; try reflexivity.
  fold (card_frame c). destruct (21 <? _); [|reflexivity].
  rewrite send_update_run. reflexivity.
Qed.

Lemma sum_cards_app a b : sum_cards (a ++ b) = sum_cards a + sum_cards b.
Proof.
  unfold sum_cards. induction a as [|c a IH]; simpl; [reflexivity|].
  rewrite IH. lia.
Qed.

Lemma sum_cards_lower l :
  Forall worth l -> Z.of_nat (length l) <= sum_cards l.
Proof.
  induction 1 as [|c l Hc _ IH]; [reflexivity|].
  change (sum_cards (c :: l)) with (card_value c.1 + sum_cards l).
  unfold worth in Hc. simpl length. lia.
Qed.

Lemma sum_cards_one c : sum_cards [c] = card_value c.1.
Proof. simpl. lia. Qed.

Lemma sent_emit f w : sent (emit f w) = sent w ++ [f].
Proof. reflexivity. Qed.

(** What the dealer's loop does: it draws the cards [cards] off the
    pile, each while the hand was worth less than 17, and stops either on
    a hand worth at least 17, with exactly one result frame after the
    cards, or on an empty pile. *)
Lemma dealer_turn_spec pile : forall player dealer w,
  exists cards pile',
    pile = cards ++ pile'
    /\ (forall k, (k < length cards)%nat ->
          sum_cards (dealer ++ take k cards) < 17)
    /\ ((dealer_turn pile player dealer w).1 = Ok (dealer ++ cards, pile')
        /\ 17 <= sum_cards (dealer ++ cards)
        /\ sent (dealer_turn pile player dealer w).2
           = sent w ++ (card_frame <$> cards)
             ++ [frame (stand_result (sum_cards player)
                          (sum_cards (dealer ++ cards))) None]
        \/
        (dealer_turn pile player dealer w).1 = Raise IndexError
        /\ pile' = [] /\ sum_cards (dealer ++ cards) < 17
        /\ sent (dealer_turn pile player dealer w).2
           = sent w ++ (card_frame <$> cards)).
Proof.
  induction pile as [|c pile IH]; intros player dealer w;
    rewrite dealer_turn_step; destruct (Z.ltb_spec (sum_cards dealer) 17).
  - exists [], []. rewrite !app_nil_r. split; [reflexivity|].
    split; [simpl; lia|]. right. cbn. rewrite ?app_nil_r. auto.
  - exists [], []. rewrite !app_nil_r. split; [reflexivity|].
    split; [simpl; lia|]. left. cbn. auto.
  - cbn zeta. destruct (Z.ltb_spec 21 (sum_cards (dealer ++ [c]))).
    + exists [c], pile. split; [reflexivity|]. split.
      { intros k Hk. simpl in Hk. replace k with 0%nat by lia.
        simpl. now rewrite app_nil_r. }
      left. cbn [fst snd]. split; [reflexivity|]. split; [lia|].
      rewrite !sent_emit, <- app_assoc. cbn. do 4 f_equal.
      unfold stand_result.
      destruct (Z.ltb_spec 21 (sum_cards (dealer ++ [c]))); [reflexivity|lia].
    + destruct (IH player (dealer ++ [c]) (emit (card_frame c) w))
        as (cards & pile' & -> & Hlt & Hend).
      exists (c :: cards), pile'. split; [reflexivity|]. split.
      { intros [|k] Hk; simpl in *; [now rewrite app_nil_r|].
        specialize (Hlt k ltac:(lia)). now rewrite <- app_assoc in Hlt. }
      replace ((dealer ++ [c]) ++ cards) with (dealer ++ c :: cards) in Hend
        by now rewrite <- app_assoc.
      destruct Hend as [(E & Hs & Hsent) | (E & -> & Hs & Hsent)];
        [left | right]; rewrite E, Hsent, sent_emit, <- app_assoc; auto.
  - exists [], (c :: pile). rewrite !app_nil_r. split; [reflexivity|].
    split; [simpl; lia|]. left. cbn. auto.
Qed.

End RoundEngine.

Section PlayerTurn.

(** What the player's loop does: it draws [hits] off the pile, sending
    one frame for each, and ends on a stand, on a bust (then the loss
    frame follows the last card), on an invalid decision, on a closed
    connection, or on an empty pile. *)
Lemma player_turn_spec pile : forall player w,
  exists hits pile',
    pile = hits ++ pile'
    /\ match player_turn pile player w with
       | (Ok (Stood p h), w') =>
           p = pile' /\ h = player ++ hits /\ safe player hits
           /\ sent w' = sent w ++ (card_frame <$> hits)
       | (Ok (Busted p h), w') =>
           p = pile' /\ h = player ++ hits /\ 21 < sum_cards h
           /\ (exists hs c, hits = hs ++ [c] /\ safe player hs)
           /\ sent w' = sent w ++ (card_frame <$> hits)
                        ++ [frame RES_LOSS None]
       | (Ok BadDecision, w') => sent w' = sent w ++ (card_frame <$> hits)
       | (Raise e, w') =>
           sent w' = sent w ++ (card_frame <$> hits)
           /\ (e = ConnectionError
               \/ (e = IndexError /\ pile' = [] /\ safe player hits))
       end.
Proof.
  induction pile as [|c pile IH]; intros player w;
    rewrite player_turn_step;
    (destruct (decide _);
     [|exists []; eexists; split; [reflexivity|]; cbn; rewrite app_nil_r; auto]);
    cbn zeta;
    destruct (unpack_client_decision_total (take 10 (inbuf w))) as [[d|] ->];
    try (exists []; eexists; split; [reflexivity|]; cbn; rewrite app_nil_r;
         reflexivity);
    (destruct (str_eqb d Stand);
     [exists []; eexists; split; [reflexivity|]; cbn; rewrite !app_nil_r;
      unfold safe; auto|]).
  - exists [], []. split; [reflexivity|]. cbn. rewrite app_nil_r.
    unfold safe. auto 6.
  - destruct (Z.ltb_spec 21 (sum_cards (player ++ [c]))).
    + exists [c], pile. split; [reflexivity|]. cbn [fst snd].
      split; [reflexivity|]. split; [reflexivity|]. split; [assumption|].
      split; [exists [], c; unfold safe; auto|].
      rewrite !sent_emit, <- app_assoc. reflexivity.
    + destruct (IH (player ++ [c]) (emit (card_frame c) (consume 10 w)))
        as (hits & pile' & -> & Hspec).
      exists (c :: hits), pile'. split; [reflexivity|].
      assert (forall hs, safe (player ++ [c]) hs -> safe player (c :: hs))
        as Hsafe_of.
      { intros hs [-> | Hs]; right; [assumption|].
        now rewrite <- app_assoc in Hs. }
      destruct (player_turn _ _ _) as [[[p h | p h |] | e] w'];
        rewrite sent_emit in Hspec; cbn [fmap list_fmap];
        change (sent (consume 10 w)) with (sent w) in Hspec.
      * destruct Hspec as (-> & -> & Hs & ->).
        rewrite <- !app_assoc. auto.
      * destruct Hspec as (-> & -> & Hb & (hs & c' & -> & Hs) & ->).
        rewrite <- !app_assoc in *. cbn [app] in *.
        split; [reflexivity|]. split; [reflexivity|]. split; [exact Hb|].
        split; [exists (c :: hs), c'; auto|]. reflexivity.
      * rewrite Hspec, <- !app_assoc. reflexivity.
      * destruct Hspec as (-> & He). rewrite <- !app_assoc.
        split; [reflexivity|]. destruct He as [-> | (-> & -> & Hs)]; auto.
Qed.

End PlayerTurn.

(** C5. The dealer's automatic play: the cards the dealer draws are the
    first cards of the pile; each of them is drawn while the hand is worth
    less than 17; the loop ends with a hand worth at least 17, and it does
    end so whenever the pile holds enough cards to reach 17 (as it does
    after a deal from 52 cards); no card is drawn from a hand worth 17 or
    more; and when the final hand is over 21, starting from a hand that was
    not, the last card was drawn on a hand below 17. *)
Theorem dealer_draws_exactly_below_17
  (pile player dealer : list Card) (w : world) :
  exists cards pile',
    pile = cards ++ pile'
    /\ (forall k, (k < length cards)%nat ->
          sum_cards (dealer ++ take k cards) < 17)
    /\ (((dealer_turn pile player dealer w).1 = Ok (dealer ++ cards, pile')
         /\ 17 <= sum_cards (dealer ++ cards))
        \/ ((dealer_turn pile player dealer w).1 = Raise IndexError
            /\ pile' = [] /\ sum_cards (dealer ++ cards) < 17))
    /\ (Forall worth pile ->
        17 <= sum_cards dealer + Z.of_nat (length pile) ->
        (dealer_turn pile player dealer w).1 = Ok (dealer ++ cards, pile'))
    /\ (17 <= sum_cards dealer -> cards = [])
    /\ (sum_cards dealer <= 21 -> 21 < sum_cards (dealer ++ cards) ->
        exists cs c, cards = cs ++ [c] /\ sum_cards (dealer ++ cs) < 17).
Proof.
  destruct (dealer_turn_spec pile player dealer w)
    as (cards & pile' & Hp & Hlt & Hend).
  exists cards, pile'. split; [exact Hp|]. split; [exact Hlt|]. split.
  { destruct Hend as [(E & H17 & _) | (E & Hn & H17 & _)]; auto. }
  split.
  { intros Hw Hlen.
    destruct Hend as [(E & _) | (_ & -> & Hlow & _)]; [exact E|].
    exfalso. rewrite app_nil_r in Hp. subst pile.
    rewrite sum_cards_app in Hlow. apply sum_cards_lower in Hw. lia. }
  split.
  - intros H17. destruct cards as [|c cards]; [reflexivity|].
    specialize (Hlt 0%nat ltac:(simpl; lia)). simpl in Hlt.
    rewrite app_nil_r in Hlt. lia.
  - intros H21 Hbust.
    destruct (decide (cards = [])) as [-> | Hne].
    + rewrite app_nil_r in Hbust. lia.
    + destruct (exists_last Hne) as (cs & c & ->).
      exists cs, c. split; [reflexivity|].
      specialize (Hlt (length cs) ltac:(rewrite length_app; simpl; lia)).
      now rewrite take_app_length in Hlt.
Qed.

Lemma dealer_draws_exactly_below_17_witness :
  exists cards pile',
    [(6, 1); (9, 0); (2, 2)] = cards ++ pile'
    /\ (dealer_turn [(6, 1); (9, 0); (2, 2)] [(10, 0); (9, 1)] [(6, 2); (8, 3)]
          (World [] [] false (fun _ => 0%nat) 0)).1
       = Ok ([(6, 2); (8, 3)] ++ cards, pile')
    /\ cards = [(6, 1)].
Proof.
  destruct (dealer_draws_exactly_below_17
              [(6, 1); (9, 0); (2, 2)] [(10, 0); (9, 1)] [(6, 2); (8, 3)]
              (World [] [] false (fun _ => 0%nat) 0))
    as (cards & pile' & Hp & _ & [[E _] | [E _]] & _ & _); [|discriminate E].
  exists cards, pile'. split; [exact Hp|]. split; [exact E|].
  vm_compute in E. injection E as E _.
  now destruct cards as [|? [|? ?]]; inversion E.
Defined.

(** C6. When the dealer stands on a hand worth 17 to 21 against a player's
    hand worth at most 21, the dealer draws nothing and sends exactly one
    frame, an Update without a card whose result is: win exactly when the
    player's sum is the larger, loss exactly when it is the smaller, tie
    exactly when the sums are equal. *)
Theorem stand_outcome (pile player dealer : list Card) (w : world) :
  17 <= sum_cards dealer <= 21 ->
  sum_cards player <= 21 ->
  exists res f,
    dealer_turn pile player dealer w = (Ok (dealer, pile), emit f w)
    /\ pack_server_update res 0 0 = Ok f
    /\ unpack_server_update f = Ok (Some (res, 0, 0))
    /\ (res = RES_WIN <-> sum_cards player > sum_cards dealer)
    /\ (res = RES_LOSS <-> sum_cards player < sum_cards dealer)
    /\ (res = RES_TIE <-> sum_cards player = sum_cards dealer).
Proof.
  intros Hd Hp. rewrite dealer_turn_step.
  destruct (Z.ltb_spec (sum_cards dealer) 17); [lia|].
  exists (stand_result (sum_cards player) (sum_cards dealer)). eexists.
  split; [reflexivity|]. split; [apply pack_server_update_ok|].
  unfold stand_result, RES_WIN, RES_LOSS, RES_TIE.
  destruct (Z.ltb_spec 21 (sum_cards dealer)); [lia|].
  destruct (Z.ltb_spec (sum_cards dealer) (sum_cards player));
    [|destruct (Z.ltb_spec (sum_cards player) (sum_cards dealer))];
    (split; [reflexivity|]); lia.
Qed.

Lemma stand_outcome_witness :
  exists res f,
    dealer_turn [(2, 0)] [(10, 0); (9, 1)] [(10, 2); (8, 3)]
      (World [] [] false (fun _ => 0%nat) 0)
    = (Ok ([(10, 2); (8, 3)], [(2, 0)]),
       emit f (World [] [] false (fun _ => 0%nat) 0))
    /\ pack_server_update res 0 0 = Ok f
    /\ res = RES_WIN.
Proof.
  destruct (stand_outcome [(2, 0)] [(10, 0); (9, 1)] [(10, 2); (8, 3)]
              (World [] [] false (fun _ => 0%nat) 0))
    as (res & f & E & Hp & _ & Hw & _); [vm_compute; split; discriminate
                                         | vm_compute; discriminate |].
  exists res, f. split; [exact E|]. split; [exact Hp|].
  apply Hw. vm_compute. reflexivity.
Defined.

(** The frames of the engine, decoded. *)
Section Frames.

Lemma frame_packed result card :
  match card with
  | None => pack_server_update result 0 0
  | Some (rank, suit) => pack_server_update result rank suit
  end = Ok (frame result card).
Proof. destruct card as [[rank suit]|]; apply pack_server_update_ok. Qed.

Lemma unpack_card_frame c :
  exists rank suit,
    unpack_server_update (card_frame c) = Ok (Some (RES_NOT_OVER, rank, suit)).
Proof.
  destruct c as [rank suit]. unfold card_frame.
  erewrite unpack_server_update_pack
    by apply (frame_packed RES_NOT_OVER (Some (rank, suit))).
  eauto.
Qed.

Lemma unpack_result_frame res :
  unpack_server_update (frame res None) = Ok (Some (Z.land res 0xFF, 0, 0)).
Proof.
  erewrite unpack_server_update_pack by apply (frame_packed res None).
  reflexivity.
Qed.

Lemma card_frame_not_terminal c : is_terminal (card_frame c) = false.
Proof.
  unfold is_terminal. destruct (unpack_card_frame c) as (rank & suit & ->).
  reflexivity.
Qed.

Lemma stand_result_cases p d :
  stand_result p d = RES_WIN \/ stand_result p d = RES_LOSS
  \/ stand_result p d = RES_TIE.
Proof.
  unfold stand_result.
  destruct (21 <? d), (d <? p), (p <? d); auto.
Qed.

Lemma stand_frame_terminal p d :
  is_terminal (frame (stand_result p d) None) = true.
Proof.
  destruct (stand_result_cases p d) as [-> | [-> | ->]]; reflexivity.
Qed.

Lemma terminals_app a b : terminals (a ++ b) = (terminals a + terminals b)%nat.
Proof. unfold terminals. now rewrite List.filter_app, length_app. Qed.

Lemma terminals_cards cs : terminals (card_frame <$> cs) = 0%nat.
Proof.
  unfold terminals. induction cs as [|c cs IH]; [reflexivity|].
  cbn [fmap list_fmap List.filter]. now rewrite card_frame_not_terminal.
Qed.

Lemma engine_frame_cards cs : Forall engine_frame (card_frame <$> cs).
Proof.
  induction cs; constructor; [left; eauto | assumption].
Qed.

Lemma engine_frame_result res : engine_frame (frame res None).
Proof. right. eauto. Qed.

Lemma engine_frame_card c : engine_frame (card_frame c).
Proof. left. eauto. Qed.

(** A frame of the engine whose result is not "not over" has rank 0 and
    suit 0. *)
Lemma engine_frame_zero_card f res rank suit :
  engine_frame f ->
  unpack_server_update f = Ok (Some (res, rank, suit)) ->
  res <> RES_NOT_OVER -> rank = 0 /\ suit = 0.
Proof.
  intros [[c ->] | [r ->]] Hu Hres.
  - destruct (unpack_card_frame c) as (rk & st & E).
    rewrite E in Hu. congruence.
  - rewrite unpack_result_frame in Hu. split; congruence.
Qed.

End Frames.

Ltac frames_ok :=
  repeat first
    [ apply Forall_nil_2
    | apply engine_frame_cards
    | apply engine_frame_result
    | apply engine_frame_card
    | apply Forall_app_2
    | apply Forall_cons_2 ].

(** A whole round. *)
Section Rounds.

(** One round on a pile of at least four cards. *)
Lemma play_on_step p0 p1 up down rest w :
  play_on (p0 :: p1 :: up :: down :: rest) w =
  let w3 :=
    emit (card_frame up) (emit (card_frame p1) (emit (card_frame p0) w)) in
  match player_turn rest [p0; p1] w3 with
  | (Ok BadDecision, w') => (Ok Return, w')
  | (Ok (Busted _ _), w') => (Ok NextRound, w')
  | (Ok (Stood pile player), w') =>
      match dealer_turn pile player [up; down] (emit (card_frame down) w') with
      | (Ok _, w'') => (Ok NextRound, w'')
      | (Raise e, w'') => (Raise e, w'')
      end
  | (Raise e, w') => (Raise e, w')
  end.
Proof.
  unfold play_on, draw, mbind, ret. rewrite !send_update_run.
  fold (card_frame p0) (card_frame p1) (card_frame up). cbn zeta.
  destruct (player_turn _ _ _) as [[[pile player | pile player |] | e] w'];
    try reflexivity.
  rewrite send_update_run. reflexivity.
Qed.

Lemma play_on_short pile w :
  (length pile < 4)%nat -> play_on pile w = (Raise IndexError, w).
Proof.
  intros H. destruct pile as [|p0 [|p1 [|up [|down rest]]]];
    try reflexivity. simpl in H. lia.
Qed.

(** The frames of one round: all of the engine's two shapes, and exactly
    one of them terminal when the round completes. *)
Lemma play_on_frames pile w :
  exists fs,
    sent (play_on pile w).2 = sent w ++ fs
    /\ Forall engine_frame fs
    /\ ((play_on pile w).1 = Ok NextRound -> terminals fs = 1%nat).
Proof.
  destruct (decide (length pile < 4)%nat) as [Hs | Hl].
  { rewrite play_on_short by exact Hs. exists []. rewrite app_nil_r.
    repeat split; [constructor | discriminate]. }
  destruct pile as [|p0 [|p1 [|up [|down rest]]]]; try (simpl in Hl; lia).
  rewrite play_on_step. cbn zeta.
  set (w3 := emit _ (emit _ (emit _ w))).
  assert (sent w3 = sent w ++ (card_frame <$> [p0; p1; up])) as Hw3
    by (unfold w3; rewrite !sent_emit, <- !app_assoc; reflexivity).
  destruct (player_turn_spec rest [p0; p1] w3) as (hits & pile' & -> & Hp).
  destruct (player_turn _ _ _) as [[[p h | p h |] | e] w'].
  - destruct Hp as (-> & -> & _ & Hs).
    destruct (dealer_turn_spec pile' ([p0; p1] ++ hits) [up; down]
                (emit (card_frame down) w'))
      as (cards & pile'' & -> & _ & Hd).
    rewrite sent_emit, Hs, Hw3 in Hd.
    destruct (dealer_turn _ _ _ _) as [[v | e] w''] eqn:E; cbn [fst snd] in *.
    + destruct Hd as [(_ & _ & ->) | (? & _)]; [|discriminate].
      eexists. split; [rewrite <- !app_assoc; reflexivity|]. split.
      * frames_ok.
      * intros _. rewrite !terminals_app, !terminals_cards.
        unfold terminals. cbn [List.filter].
        now rewrite card_frame_not_terminal, stand_frame_terminal.
    + destruct Hd as [(? & _) | (_ & _ & _ & ->)]; [discriminate|].
      eexists. split; [rewrite <- !app_assoc; reflexivity|]. split.
      * frames_ok.
      * discriminate.
  - destruct Hp as (-> & -> & _ & _ & Hs). cbn [fst snd].
    rewrite Hs, Hw3. eexists.
    split; [rewrite <- !app_assoc; reflexivity|]. split.
    + frames_ok.
    + intros _. rewrite !terminals_app, !terminals_cards. reflexivity.
  - cbn [fst snd]. rewrite Hp, Hw3. eexists.
    split; [rewrite <- !app_assoc; reflexivity|]. split.
    + frames_ok.
    + discriminate.
  - destruct Hp as (Hs & _). cbn [fst snd]. rewrite Hs, Hw3. eexists.
    split; [rewrite <- !app_assoc; reflexivity|]. split.
    + frames_ok.
    + discriminate.
Qed.

End Rounds.

(** Rounds on a fresh deck never run out of cards. *)
Section NoUnderflow.

Lemma safe_short hand hits :
  Forall worth hand -> Forall worth hits -> safe hand hits ->
  (length hand + length hits <= 21)%nat \/ hits = [].
Proof.
  intros Hh Hs [-> | H]; [now right | left].
  rewrite sum_cards_app in H.
  apply sum_cards_lower in Hh, Hs. lia.
Qed.

(** With 39 cards or more on the pile, a round cannot run out of cards:
    the player stops at 22 cards at most, the dealer at 17. *)
Lemma play_on_no_underflow pile w e :
  Forall worth pile -> (39 <= length pile)%nat ->
  (play_on pile w).1 = Raise e -> e = ConnectionError.
Proof.
  intros Hw Hl.
  destruct pile as [|p0 [|p1 [|up [|down rest]]]]; try (simpl in Hl; lia).
  apply Forall_cons in Hw as [H0 Hw]. apply Forall_cons in Hw as [H1 Hw].
  apply Forall_cons in Hw as [H2 Hw]. apply Forall_cons in Hw as [H3 Hw].
  rewrite play_on_step. cbn zeta.
  destruct (player_turn_spec rest [p0; p1]
              (emit (card_frame up)
                 (emit (card_frame p1) (emit (card_frame p0) w))))
    as (hits & pile' & -> & Hp).
  apply Forall_app in Hw as [Hhits Hw]. simpl in Hl. rewrite length_app in Hl.
  assert (Forall worth [p0; p1]) as Hhand by (repeat constructor; assumption).
  destruct (player_turn _ _ _) as [[[p h | p h |] | e'] w'];
    cbn [fst]; try discriminate.
  - destruct Hp as (-> & -> & Hsafe & _).
    destruct (dealer_turn_spec pile' ([p0; p1] ++ hits) [up; down]
                (emit (card_frame down) w'))
      as (cards & pile'' & -> & _ & Hd).
    destruct (dealer_turn _ _ _ _) as [[v | e'] w''] eqn:E;
      cbn [fst snd] in *; [discriminate|].
    intros He. injection He as ->.
    destruct Hd as [(? & _) | (_ & -> & Hlow & _)]; [discriminate|].
    exfalso. apply Forall_app in Hw as [Hcards _].
    rewrite length_app in Hl. simpl in Hl.
    rewrite sum_cards_app in Hlow.
    assert (Forall worth [up; down]) as Hdealer
      by (repeat constructor; assumption).
    apply sum_cards_lower in Hcards, Hdealer. simpl length in Hdealer.
    destruct (safe_short _ _ Hhand Hhits Hsafe) as [Hn | ->];
      simpl in *; lia.
  - intros He. injection He as ->.
    destruct Hp as (_ & [-> | (-> & -> & Hsafe)]); [reflexivity|].
    exfalso. simpl in Hl.
    destruct (safe_short _ _ Hhand Hhits Hsafe) as [Hn | ->];
      simpl in *; lia.
Qed.

Lemma standard_worth c : standard c -> worth c.
Proof.
  unfold standard, worth, card_value. intros [Hr _].
  destruct (Z.leb_spec 11 c.1); lia.
Qed.

Lemma fresh_pile_rich deck :
  deck ≡ₚ ordered_deck ->
  Forall worth (rev deck) /\ (39 <= length (rev deck))%nat.
Proof.
  intros Hp. split.
  - apply Forall_forall. intros c Hc. apply standard_worth.
    apply ordered_deck_elem. rewrite <- Hp.
    apply list_elem_of_In. apply in_rev. now apply list_elem_of_In.
  - rewrite length_rev, Hp. vm_compute. lia.
Qed.

(** One round of [handle_client]. *)
Lemma play_round_spec w :
  exists fs,
    sent (play_round w).2 = sent w ++ fs
    /\ Forall engine_frame fs
    /\ ((play_round w).1 = Ok NextRound -> terminals fs = 1%nat)
    /\ (forall e, (play_round w).1 = Raise e -> e = ConnectionError).
Proof.
  unfold play_round, mbind.
  destruct (fresh_shuffled_deck_perm w) as (deck & w1 & -> & Hp & _ & Hs & _).
  destruct (fresh_pile_rich deck Hp) as [Hw Hl].
  destruct (play_on_frames (rev deck) w1) as (fs & Hsent & Hfs & Hone).
  exists fs. rewrite <- Hs. repeat split; try assumption.
  intros e. now apply play_on_no_underflow.
Qed.

Lemma rounds_loop_spec n : forall w,
  exists fs,
    sent (rounds_loop n w).2 = sent w ++ fs
    /\ Forall engine_frame fs
    /\ ((rounds_loop n w).1 = Ok FinishedAllRounds -> terminals fs = n)
    /\ (forall e, (rounds_loop n w).1 = Raise e -> e = ConnectionError).
Proof.
  induction n as [|n IH]; intros w.
  - exists []. cbn. rewrite app_nil_r.
    repeat split; [constructor | discriminate].
  - cbn [rounds_loop]. unfold mbind.
    destruct (play_round_spec w) as (fs & Hs & Hfs & Hone & Hexn).
    destruct (play_round w) as [[[|] | e] w1]; cbn [fst snd] in *.
    + destruct (IH w1) as (fs' & Hs' & Hfs' & Hn & Hexn').
      exists (fs ++ fs'). rewrite Hs', Hs, app_assoc.
      split; [reflexivity|]. split; [now apply Forall_app|]. split.
      * intros Hfin. rewrite terminals_app, Hone, Hn by auto. reflexivity.
      * exact Hexn'.
    + exists fs. repeat split; try assumption; discriminate.
    + exists fs. repeat split; try assumption; try discriminate.
      intros e' He. injection He as <-. now apply Hexn.
Qed.

Lemma clamp_rounds_range r : 1 <= clamp_rounds r <= 255.
Proof. unfold clamp_rounds. lia. Qed.

Lemma handle_client_body_spec w :
  exists fs,
    sent (handle_client_body w).2 = sent w ++ fs
    /\ Forall engine_frame fs
    /\ ((handle_client_body w).1 = Ok FinishedAllRounds ->
        exists req,
          unpack_request (take 38 (inbuf w)) = Ok (Some req)
          /\ Z.of_nat (terminals fs) = clamp_rounds (rounds req))
    /\ (forall e, (handle_client_body w).1 = Raise e -> e = ConnectionError).
Proof.
  unfold handle_client_body, mbind, read_exact, lift.
  change (calcsize REQUEST_STRUCT) with 38%nat.
  destruct (decide _).
  2:{ exists []. cbn. rewrite app_nil_r.
      repeat split; [constructor | discriminate | congruence]. }
  destruct (unpack_request_total (take 38 (inbuf w))) as [[req|] ->].
  - fold (consume 38 w).
    destruct (rounds_loop_spec (Z.to_nat (clamp_rounds (rounds req)))
                (consume 38 w)) as (fs & Hs & Hfs & Hn & Hexn).
    exists fs. split; [exact Hs|]. split; [exact Hfs|]. split; [|exact Hexn].
    intros Hfin. exists req. split; [reflexivity|].
    rewrite (Hn Hfin). pose proof (clamp_rounds_range (rounds req)). lia.
  - exists []. cbn. rewrite app_nil_r.
    repeat split; [constructor | discriminate | discriminate].
Qed.

End NoUnderflow.

(** The worker around its rounds. *)
Section Worker.

Lemma draw_is_pop deck w :
  draw (rev deck) w =
  match list_pop deck with
  | Ok (c, deck') => (Ok (c, rev deck'), w)
  | Raise e => (Raise e, w)
  end.
Proof.
  unfold draw, list_pop. destruct (rev deck) as [|c pile]; [reflexivity|].
  now rewrite rev_involutive.
Qed.

Lemma be_int_byte b :
  is_bytes b -> (length b <= 1)%nat -> 0 <= be_int b <= 255.
Proof.
  intros Hb Hl. destruct b as [|x [|y b]]; [cbn; lia | | simpl in Hl; lia].
  apply Forall_cons in Hb as [Hx _]. cbn. lia.
Qed.

(** The round count of a decoded Request is the value of one byte. *)
Lemma request_rounds_byte data req :
  is_bytes data -> unpack_request data = Ok (Some req) ->
  0 <= rounds req <= 255.
Proof.
  intros Hb. rewrite unpack_request_eq.
  destruct (decide _); [discriminate|]. cbn zeta.
  destruct (header_ok _ _); [|discriminate].
  intros H. injection H as <-. cbn [rounds].
  apply be_int_byte.
  - apply Forall_take, Forall_drop, Forall_take, Hb.
  - rewrite length_take. lia.
Qed.

Lemma handle_client_sent w :
  sent (handle_client w).2 = sent (handle_client_body w).2.
Proof.
  unfold handle_client, try_worker.
  now destruct (handle_client_body w) as [r w'].
Qed.

Lemma handle_client_returned w v :
  (handle_client w).1 = Returned v -> (handle_client_body w).1 = Ok v.
Proof.
  unfold handle_client, try_worker.
  destruct (handle_client_body w) as [[v' | e] w']; cbn [fst].
  - congruence.
  - destruct (caught e); discriminate.
Qed.

End Worker.

(** C7. A hit that takes the player's hand over 21 makes the dealer send
    exactly two frames, the card with result "not over" and then a loss
    without a card, and ends the player's turn as a bust; a round whose
    player's turn ends as a bust sends nothing after that loss frame (no
    hole card, no dealer card) and goes on to the next round; and in every
    run of the worker, each frame whose result is not "not over" has rank 0
    and suit 0. *)
Theorem bust_sends_card_then_loss :
  (forall pile c player w,
     (10 <= length (inbuf w))%nat ->
     unpack_client_decision (take 10 (inbuf w)) = Ok (Some Hittt) ->
     21 < sum_cards (player ++ [c]) ->
     exists f_card f_loss,
       pack_server_update RES_NOT_OVER c.1 c.2 = Ok f_card
       /\ pack_server_update RES_LOSS 0 0 = Ok f_loss
       /\ unpack_server_update f_loss = Ok (Some (RES_LOSS, 0, 0))
       /\ player_turn (c :: pile) player w
          = (Ok (Busted pile (player ++ [c])),
             World (drop 10 (inbuf w)) (sent w ++ [f_card; f_loss])
               (closed w) (tape w) (drawn w)))
  /\ (forall p0 p1 up down rest w pile' hand w',
     player_turn rest [p0; p1]
       (emit (card_frame up) (emit (card_frame p1) (emit (card_frame p0) w)))
     = (Ok (Busted pile' hand), w') ->
     play_on (p0 :: p1 :: up :: down :: rest) w = (Ok NextRound, w')
     /\ exists hits,
          hand = [p0; p1] ++ hits /\ rest = hits ++ pile'
          /\ sent w' = sent w ++ (card_frame <$> [p0; p1; up] ++ hits)
                       ++ [frame RES_LOSS None])
  /\ (forall w, exists fs,
     sent (handle_client w).2 = sent w ++ fs
     /\ forall f res rank suit,
          f ∈ fs -> unpack_server_update f = Ok (Some (res, rank, suit)) ->
          res <> RES_NOT_OVER -> rank = 0 /\ suit = 0).
Proof.
  split; [|split].
  - intros pile c player w Hl Hd Hb. destruct c as [rank suit].
    exists (card_frame (rank, suit)), (frame RES_LOSS None).
    split; [apply pack_server_update_ok|].
    split; [apply pack_server_update_ok|]. split; [reflexivity|].
    rewrite player_turn_step, decide_True by exact Hl. cbn zeta. rewrite Hd.
    change (str_eqb Hittt Stand) with false. cbn iota.
    apply Z.ltb_lt in Hb. rewrite Hb.
    unfold emit, consume. cbn [inbuf sent closed tape drawn].
    now rewrite <- app_assoc.
  - intros p0 p1 up down rest w pile' hand w' Hturn.
    rewrite play_on_step. cbn zeta. rewrite Hturn. split; [reflexivity|].
    destruct (player_turn_spec rest [p0; p1]
                (emit (card_frame up)
                   (emit (card_frame p1) (emit (card_frame p0) w))))
      as (hits & pile'' & Hrest & Hp).
    rewrite Hturn in Hp. destruct Hp as (-> & -> & _ & _ & Hs).
    exists hits. split; [reflexivity|]. split; [exact Hrest|].
    rewrite Hs, !sent_emit, fmap_app, <- !app_assoc. reflexivity.
  - intros w. destruct (handle_client_body_spec w) as (fs & Hs & Hfs & _).
    exists fs. rewrite handle_client_sent. split; [exact Hs|].
    intros f res rank suit Hin. apply engine_frame_zero_card.
    rewrite Forall_forall in Hfs. now apply Hfs.
Qed.

Lemma bust_sends_card_then_loss_witness :
  exists f_card f_loss,
    pack_server_update RES_NOT_OVER 9 2 = Ok f_card
    /\ pack_server_update RES_LOSS 0 0 = Ok f_loss
    /\ unpack_server_update f_loss = Ok (Some (RES_LOSS, 0, 0))
    /\ player_turn [(9, 2); (4, 0)] [(10, 0); (5, 1)]
         (World [0xAB; 0xCD; 0xDC; 0xBA; 4; 72; 105; 116; 116; 116]
            [] false (fun _ => 0%nat) 0)
       = (Ok (Busted [(4, 0)] [(10, 0); (5, 1); (9, 2)]),
          World [] [f_card; f_loss] false (fun _ => 0%nat) 0).
Proof.
  destruct bust_sends_card_then_loss as (Hbust & _ & _).
  apply (Hbust [(4, 0)] (9, 2) [(10, 0); (5, 1)]
           (World [0xAB; 0xCD; 0xDC; 0xBA; 4; 72; 105; 116; 116; 116]
              [] false (fun _ => 0%nat) 0)).
  - simpl. lia.
  - reflexivity.
  - vm_compute. reflexivity.
Defined.

(** C4, as the code has it. A request for 300 rounds is not clamped to
    255: [pack_request] sends 300 mod 256 = 44, and the dealer, fed with
    enough decisions, plays 44 rounds. *)
Lemma request_for_300_plays_44 :
  exists req_bytes stand_bytes,
    pack_request 300 (lit "player"%string) = Ok req_bytes
    /\ pack_client_decision Stand = Ok stand_bytes
    /\ (exists name,
          unpack_request req_bytes = Ok (Some {| rounds := 44; client_name := name |}))
    /\ let w := World (req_bytes ++ concat (replicate 300 stand_bytes))
                  [] false (fun n => n) 0 in
       (handle_client w).1 = Returned FinishedAllRounds
       /\ terminals (sent (handle_client w).2) = 44%nat
       /\ terminals (sent (handle_client w).2) <> 255%nat.
Proof.
  do 2 eexists. split; [reflexivity|]. split; [reflexivity|].
  split; [eexists; reflexivity|]. vm_compute.
  split; [reflexivity|]. split; [reflexivity|]. discriminate.
Qed.

(** C4, amended. The dealer clamps the round count it decodes from the
    Request, a byte, into 1..255 (only 0 changes, to 1), and a worker that
    gets to the end of its rounds has resolved exactly that many rounds (one
    terminal Update each); a count of 300 given to [pack_request] reaches
    the dealer as 44, which the clamp leaves alone. *)
Theorem dealer_plays_clamped_rounds :
  (forall w,
     (handle_client w).1 = Returned FinishedAllRounds ->
     exists req fs,
       unpack_request (take 38 (inbuf w)) = Ok (Some req)
       /\ 1 <= clamp_rounds (rounds req) <= 255
       /\ (is_bytes (inbuf w) ->
           clamp_rounds (rounds req)
           = if rounds req =? 0 then 1 else rounds req)
       /\ sent (handle_client w).2 = sent w ++ fs
       /\ Z.of_nat (terminals fs) = clamp_rounds (rounds req))
  /\ (forall name, exists b n,
     pack_request 300 name = Ok b
     /\ unpack_request b = Ok (Some {| rounds := 44; client_name := n |})
     /\ clamp_rounds 44 = 44).
Proof.
  split.
  - intros w Hfin. apply handle_client_returned in Hfin.
    destruct (handle_client_body_spec w) as (fs & Hs & _ & Hn & _).
    destruct (Hn Hfin) as (req & Hreq & Hcount).
    exists req, fs. split; [exact Hreq|].
    split; [apply clamp_rounds_range|]. split.
    + intros Hb.
      assert (is_bytes (take 38 (inbuf w))) as Hb' by now apply Forall_take.
      pose proof (request_rounds_byte _ _ Hb' Hreq).
      unfold clamp_rounds. destruct (Z.eqb_spec (rounds req) 0); lia.
    + rewrite handle_client_sent. auto.
  - intros name. do 2 eexists. split; [apply pack_request_ok|].
    erewrite unpack_request_pack by apply pack_request_ok.
    split; reflexivity.
Qed.

Lemma dealer_plays_clamped_rounds_witness :
  exists req fs,
    unpack_request
      (take 38 ([0xAB; 0xCD; 0xDC; 0xBA; 3; 2] ++ replicate 32 0
                ++ concat (replicate 2 [0xAB; 0xCD; 0xDC; 0xBA; 4; 83; 116; 97; 110; 100])))
    = Ok (Some req)
    /\ rounds req = 2
    /\ sent (handle_client
               (World ([0xAB; 0xCD; 0xDC; 0xBA; 3; 2] ++ replicate 32 0
                       ++ concat (replicate 2 [0xAB; 0xCD; 0xDC; 0xBA; 4; 83; 116; 97; 110; 100]))
                  [] false (fun n => n) 0)).2 = fs
    /\ Z.of_nat (terminals fs) = 2.
Proof.
  destruct (proj1 dealer_plays_clamped_rounds
              (World ([0xAB; 0xCD; 0xDC; 0xBA; 3; 2] ++ replicate 32 0
                      ++ concat (replicate 2 [0xAB; 0xCD; 0xDC; 0xBA; 4; 83; 116; 97; 110; 100]))
                 [] false (fun n => n) 0))
    as (req & fs & Hreq & _ & _ & Hs & Hn); [vm_compute; reflexivity|].
  exists req, fs. split; [exact Hreq|].
  assert (rounds req = 2) as Hr
    by (vm_compute in Hreq; injection Hreq as <-; reflexivity).
  split; [exact Hr|]. split; [exact Hs|].
  rewrite Hn, Hr. reflexivity.
Defined.

(** C9, as the code has it. A draw on an empty pile raises IndexError,
    and the handlers of [handle_client] do not catch it: a round started on
    an empty deck would end the worker with that exception. *)
Lemma empty_deck_escapes_worker :
  draw [] (World [] [] false (fun n => n) 0)
  = (Raise IndexError, World [] [] false (fun n => n) 0)
  /\ try_worker (let! _ := play_on [] in ret FinishedAllRounds)
       (World [] [] false (fun n => n) 0)
     = (Propagated IndexError, World [] [] true (fun n => n) 0).
Proof. split; reflexivity. Qed.

(** C9, amended. Popping an empty deck raises IndexError, which
    [handle_client] does not catch; but no run of [handle_client] gets
    there: every round starts on a fresh deck of 52 cards, and the worker
    always ends by returning or by logging a ConnectionError. *)
Theorem deck_never_underflows (w : world) :
  list_pop (@nil Card) = Raise IndexError
  /\ caught IndexError = false
  /\ ((exists v, (handle_client w).1 = Returned v)
      \/ (handle_client w).1 = ConnectionErrorLogged ConnectionError).
Proof.
  split; [reflexivity|]. split; [reflexivity|].
  destruct (handle_client_body_spec w) as (fs & _ & _ & _ & Hexn).
  unfold handle_client, try_worker.
  destruct (handle_client_body w) as [[v | e] w']; cbn [fst snd] in *.
  - left. eauto.
  - right. rewrite (Hexn e eq_refl). reflexivity.
Qed.

(* ================================================================== *)
(** ** More about the frame codec *)
(* ================================================================== *)

(** What the encoders refuse, and what they produce. *)
Section Encoders.

Lemma pack_int_out_of_range n z :
  ~ 0 <= z < 256 ^ Z.of_nat n -> pack_int n z = Raise StructError.
Proof.
  intros H. unfold pack_int.
  destruct (Z.leb_spec 0 z); destruct (Z.ltb_spec z (256 ^ Z.of_nat n));
    try reflexivity. lia.
Qed.

Lemma be_bytes_is_bytes n v : is_bytes (be_bytes n v).
Proof.
  induction n as [|n IH]; [constructor|].
  cbn [be_bytes]. constructor; [|exact IH].
  apply Z.mod_pos_bound. lia.
Qed.

Lemma is_decision_false d : d <> Hittt -> d <> Stand -> is_decision d = false.
Proof.
  intros H1 H2. unfold is_decision, str_eqb.
  now rewrite !bool_decide_eq_false_2.
Qed.

End Encoders.

(** X1. [pack_offer] accepts exactly the ports 0..65535: for those it
    returns a frame of 39 bytes, for every other integer it raises
    struct.error, whatever the name. *)
Theorem pack_offer_port_range (port : Z) (name : str) :
  (0 <= port <= 65535 ->
   exists b, pack_offer port name = Ok b /\ length b = 39%nat)
  /\ (~ 0 <= port <= 65535 -> pack_offer port name = Raise StructError).
Proof.
  split.
  - intros H. eexists. split; [now apply pack_offer_ok|].
    apply (pack_length OFFER_STRUCT _ _ (pack_offer_ok port name H)).
  - intros H. unfold pack_offer, OFFER_STRUCT. cbn [Struct.pack width].
    rewrite (pack_int_out_of_range 2 port) by (simpl; lia). reflexivity.
Qed.

Lemma pack_offer_port_range_witness :
  (exists b, pack_offer 13117 (lit "dealer"%string) = Ok b /\ length b = 39%nat)
  /\ pack_offer 65536 (lit "dealer"%string) = Raise StructError
  /\ pack_offer (-1) [] = Raise StructError.
Proof.
  split; [|split].
  - apply (pack_offer_port_range 13117 (lit "dealer"%string)). lia.
  - apply (pack_offer_port_range 65536 (lit "dealer"%string)). lia.
  - apply (pack_offer_port_range (-1) []). lia.
Defined.

(** X2. [pack_client_decision] encodes the two tokens, as a frame of 10
    bytes that ends with the token, and raises ValueError on every other
    string. *)
Theorem pack_client_decision_only_tokens (d : str) :
  (d = Hittt \/ d = Stand ->
   exists b, pack_client_decision d = Ok b
     /\ length b = 10%nat /\ drop 5 b = d)
  /\ (d <> Hittt -> d <> Stand -> pack_client_decision d = Raise ValueError).
Proof.
  split.
  - intros [-> | ->]; eexists; repeat split; reflexivity.
  - intros H1 H2. unfold pack_client_decision.
    now rewrite is_decision_false.
Qed.

Lemma pack_client_decision_only_tokens_witness :
  (exists b, pack_client_decision Hittt = Ok b
     /\ length b = 10%nat /\ drop 5 b = Hittt)
  /\ pack_client_decision (lit "hit"%string) = Raise ValueError
  /\ pack_client_decision (lit "Hittt "%string) = Raise ValueError.
Proof.
  split; [|split].
  - apply (pack_client_decision_only_tokens Hittt). left. reflexivity.
  - apply (pack_client_decision_only_tokens (lit "hit"%string));
      vm_compute; discriminate.
  - apply (pack_client_decision_only_tokens (lit "Hittt "%string));
      vm_compute; discriminate.
Defined.

(** X3. [pack_server_update] never raises: for all integers it returns 9
    bytes, each in 0..255, which decode to the result modulo 256, the rank
    modulo 65536 and the suit modulo 256. *)
Theorem server_update_wraps (result rank suit : Z) :
  exists b, pack_server_update result rank suit = Ok b
    /\ length b = 9%nat
    /\ is_bytes b
    /\ unpack_server_update b
       = Ok (Some (result mod 256, rank mod 65536, suit mod 256)).
Proof.
  eexists. split; [apply pack_server_update_ok|]. split; [reflexivity|]. split.
  - repeat (apply Forall_app_2; [apply be_bytes_is_bytes|]). constructor.
  - erewrite unpack_server_update_pack by apply pack_server_update_ok.
    change 0xFF with (Z.ones 8). change 0xFFFF with (Z.ones 16).
    rewrite !Z.land_ones by lia. reflexivity.
Qed.

(** The name field beyond the round trip. *)
Section NameField.




Lemma utf8_encode_char_length c :
  (1 <= length (utf8_encode_char c) <= 4)%nat.
Proof.
  unfold utf8_encode_char.
  destruct (c <? 0x80), (c <? 0x800), (c <? 0x10000); simpl; lia.
Qed.



Lemma utf8_encode_ascii s :
  Forall (fun c => 0 <= c < 0x80) s -> utf8_encode_ignore s = s.
Proof.
  induction 1 as [|c s Hc _ IH]; [reflexivity|].
  cbn [utf8_encode_ignore]. unfold is_surrogate, utf8_encode_char.
  ztest. cbn [andb app]. now rewrite IH.
Qed.

Lemma utf8_decode_ascii b :
  Forall (fun c => 0 <= c < 0x80) b -> utf8_decode_ignore b = b.
Proof.
  induction 1 as [|c b Hc _ IH]; [reflexivity|].
  cbn [utf8_decode_ignore]. ztest. now rewrite IH.
Qed.

End NameField.



(** X5. A name of ASCII characters other than NUL comes back as its first
    32 characters. *)
Theorem fixed_name_ascii_truncates (name : str) :
  forallb (fun c => (1 <=? c) && (c <? 0x80)) name = true ->
  _decode_fixed_name (_fixed_name_bytes name) = take 32 name.
Proof.
  intros Ha.
  assert (Forall (fun c => 1 <= c < 0x80) name) as Hn.
  { apply List.Forall_forall. intros c Hc. rewrite forallb_forall in Ha.
    specialize (Ha c Hc). apply andb_prop in Ha as [H1 H2].
    apply Z.leb_le in H1. apply Z.ltb_lt in H2. lia. }
  unfold _decode_fixed_name, _fixed_name_bytes.
  rewrite utf8_encode_ascii
    by (eapply Forall_impl; [exact Hn | cbn; intros; lia]).
  rewrite before_first_zero_padded
    by (apply Forall_take; eapply Forall_impl; [exact Hn | cbn; intros; lia]).
  apply utf8_decode_ascii, Forall_take.
  eapply Forall_impl; [exact Hn | cbn; intros; lia].
Qed.

Lemma fixed_name_ascii_truncates_witness :
  _decode_fixed_name
    (_fixed_name_bytes (lit "The Quick Brown Fox Jumps Over The Lazy Dog"%string))
  = lit "The Quick Brown Fox Jumps Over T"%string.
Proof.
  apply (fixed_name_ascii_truncates
           (lit "The Quick Brown Fox Jumps Over The Lazy Dog"%string)).
  reflexivity.
Defined.

(* ================================================================== *)
(** ** Reading a frame off a stream *)
(* ================================================================== *)

Section ShortReads.

Lemma take_split {A} (l : list A) a b :
  take (a + b) l = take a l ++ take b (drop a l).
Proof.
  revert l. induction a as [|a IH]; intros [|x l]; simpl;
    rewrite ?take_nil; try reflexivity.
  now rewrite IH.
Qed.

Lemma read_exact_loop_spec fuel : forall n chunks got s,
  (got <= n)%nat -> (n - got <= fuel)%nat ->
  let r := Socket.read_exact_loop fuel n chunks got s in
  if decide (n - got <= length (Socket.pending s))%nat
  then r.1 = Ok (concat chunks ++ take (n - got) (Socket.pending s))
       /\ Socket.pending r.2 = drop (n - got) (Socket.pending s)
  else r.1 = Raise ConnectionError /\ Socket.pending r.2 = [].
Proof.
  induction fuel as [|fuel IH]; intros n chunks got s Hgot Hfuel; cbn zeta.
  - replace got with n by lia. cbn [Socket.read_exact_loop].
    rewrite Nat.ltb_irrefl, Nat.sub_diag, decide_True by lia.
    cbn. now rewrite app_nil_r.
  - cbn [Socket.read_exact_loop].
    destruct (Nat.ltb_spec got n) as [Hlt | Hge].
    2:{ replace (n - got)%nat with 0%nat by lia.
        rewrite decide_True by lia. cbn. now rewrite app_nil_r. }
    unfold Socket.recv. cbn zeta.
    set (m := Nat.min (n - got) (S (Socket.portion s (Socket.calls s)))).
    assert (1 <= m <= n - got)%nat as Hm by (unfold m; lia).
    destruct (Socket.pending s) as [|x rest] eqn:Hp.
    + rewrite take_nil, drop_nil. rewrite decide_False by (simpl; lia).
      split; reflexivity.
    + destruct (take m (x :: rest)) as [|y b] eqn:Hb.
      { destruct m; [lia | discriminate Hb]. }
      rewrite <- Hb. clear y b Hb.
      set (s' := Socket.Sock (drop m (x :: rest)) _ _).
      assert (length (take m (x :: rest)) = Nat.min m (length (x :: rest)))
        as Hl by apply length_take.
      assert (1 <= length (x :: rest))%nat as Hne by (simpl; lia).
      specialize (IH n (chunks ++ [take m (x :: rest)])
                    (got + length (take m (x :: rest)))%nat s'
                    ltac:(lia) ltac:(lia)).
      cbn zeta in IH. change (Socket.pending s') with (drop m (x :: rest)) in IH.
      rewrite length_drop in IH.
      destruct (decide (n - got <= length (x :: rest))%nat) as [Hen | Hsh].
      * rewrite decide_True in IH by lia. destruct IH as [-> ->].
        rewrite Hl, Nat.min_l by lia. split.
        -- rewrite concat_app. cbn [concat]. rewrite app_nil_r, <- app_assoc.
           apply (f_equal (fun t => Ok (concat chunks ++ t))).
           replace (take (n - got) (x :: rest))
             with (take (m + (n - (got + m))) (x :: rest)) by (f_equal; lia).
           symmetry. apply take_split.
        -- rewrite drop_drop. f_equal. lia.
      * rewrite decide_False in IH by lia. exact IH.
Qed.

End ShortReads.

(** X6. [read_exact] returns the next [n] bytes of the stream and leaves
    the rest unread, however the network cuts the stream into pieces; it
    raises ConnectionError exactly when the peer closes before [n] bytes
    have come.  So it does what the model of the worker takes it to do. *)
Theorem read_exact_any_fragmentation (n : nat) (s : Socket.sock) :
  (n <= length (Socket.pending s) ->
   (Socket.read_exact n s).1 = Ok (take n (Socket.pending s))
   /\ Socket.pending (Socket.read_exact n s).2 = drop n (Socket.pending s))%nat
  /\ (length (Socket.pending s) < n ->
      (Socket.read_exact n s).1 = Raise ConnectionError
      /\ Socket.pending (Socket.read_exact n s).2 = [])%nat
  /\ (forall w, inbuf w = Socket.pending s ->
        (read_exact n w).1 = (Socket.read_exact n s).1
        /\ inbuf (read_exact n w).2
           = Socket.pending (Socket.read_exact n s).2).
Proof.
  pose proof (read_exact_loop_spec n n [] 0%nat s ltac:(lia) ltac:(lia)) as H.
  cbn zeta in H. rewrite Nat.sub_0_r in H. fold (Socket.read_exact n s) in H.
  split; [|split].
  - intros Hn. now rewrite decide_True in H by lia.
  - intros Hn. now rewrite decide_False in H by lia.
  - intros w Hw. unfold read_exact. rewrite Hw.
    destruct (decide (n <= length (Socket.pending s))%nat);
      destruct H as [-> ->]; split; reflexivity.
Qed.

Lemma read_exact_any_fragmentation_witness :
  (Socket.read_exact 5
     (Socket.Sock [1; 2; 3; 4; 5; 6; 7] (fun t => t) 0)).1
  = Ok [1; 2; 3; 4; 5]
  /\ (Socket.read_exact 9
        (Socket.Sock [1; 2; 3; 4; 5; 6; 7] (fun t => t) 0)).1
     = Raise ConnectionError.
Proof.
  split.
  - apply (read_exact_any_fragmentation 5
             (Socket.Sock [1; 2; 3; 4; 5; 6; 7] (fun t => t) 0)).
    simpl. lia.
  - apply (read_exact_any_fragmentation 9
             (Socket.Sock [1; 2; 3; 4; 5; 6; 7] (fun t => t) 0)).
    simpl. lia.
Defined.

(* ================================================================== *)
(** ** The trace of a round *)
(* ================================================================== *)

Section RoundTrace.

(** All the ways a round on a pile of four cards or more can go, with the
    frames it sends in each. *)
Lemma play_on_trace p0 p1 up down rest w :
  exists hits pile',
    rest = hits ++ pile'
    /\ match play_on (p0 :: p1 :: up :: down :: rest) w with
       | (Ok NextRound, w') =>
           (21 < sum_cards ([p0; p1] ++ hits)
            /\ (exists hs c, hits = hs ++ [c] /\ safe [p0; p1] hs)
            /\ sent w' = sent w ++ (card_frame <$> [p0; p1; up] ++ hits)
                         ++ [frame RES_LOSS None])
           \/ (safe [p0; p1] hits
               /\ exists cards pile'',
                    pile' = cards ++ pile''
                    /\ (forall k, (k < length cards)%nat ->
                          sum_cards ([up; down] ++ take k cards) < 17)
                    /\ 17 <= sum_cards ([up; down] ++ cards)
                    /\ sent w'
                       = sent w ++ (card_frame <$> [p0; p1; up] ++ hits)
                         ++ (card_frame <$> down :: cards)
                         ++ [frame (stand_result
                                      (sum_cards ([p0; p1] ++ hits))
                                      (sum_cards ([up; down] ++ cards)))
                               None])
       | (Ok Return, w') =>
           sent w' = sent w ++ (card_frame <$> [p0; p1; up] ++ hits)
       | (Raise e, w') =>
           (e = ConnectionError \/ e = IndexError)
           /\ (sent w' = sent w ++ (card_frame <$> [p0; p1; up] ++ hits)
               \/ sent w' = sent w ++ (card_frame <$> [p0; p1; up] ++ hits)
                            ++ (card_frame <$> down :: pile'))
       end.
Proof.
  rewrite play_on_step. cbn zeta.
  set (w3 := emit _ (emit _ (emit _ w))).
  assert (sent w3 = sent w ++ (card_frame <$> [p0; p1; up])) as Hw3
    by (unfold w3; rewrite !sent_emit, <- !app_assoc; reflexivity).
  destruct (player_turn_spec rest [p0; p1] w3) as (hits & pile' & -> & Hp).
  exists hits, pile'. split; [reflexivity|].
  assert (forall tail : list bytes,
            (sent w ++ (card_frame <$> [p0; p1; up])) ++ (card_frame <$> hits) ++ tail
            = sent w ++ (card_frame <$> [p0; p1; up] ++ hits) ++ tail) as Hdeal.
  { intros tail. rewrite fmap_app, <- !app_assoc. reflexivity. }
  destruct (player_turn _ _ _) as [[[p h | p h |] | e] w'].
  - destruct Hp as (-> & -> & Hsafe & Hs).
    destruct (dealer_turn_spec pile' ([p0; p1] ++ hits) [up; down]
                (emit (card_frame down) w'))
      as (cards & pile'' & -> & Hlt & Hd).
    rewrite sent_emit, Hs, Hw3 in Hd.
    destruct (dealer_turn _ _ _ _) as [[v | e] w''] eqn:E; cbn [fst snd] in *.
    + destruct Hd as [(_ & H17 & ->) | (? & _)]; [|discriminate].
      right. split; [exact Hsafe|]. exists cards, pile''.
      split; [reflexivity|]. split; [exact Hlt|]. split; [exact H17|].
      rewrite <- Hdeal, <- !app_assoc. reflexivity.
    + destruct Hd as [(? & _) | (He & -> & _ & ->)]; [discriminate|].
      injection He as ->. split; [now right|]. right.
      rewrite app_nil_r, <- Hdeal, <- !app_assoc. reflexivity.
  - destruct Hp as (-> & -> & Hb & Hhs & ->). left.
    split; [exact Hb|]. split; [exact Hhs|]. rewrite Hw3. apply Hdeal.
  - rewrite Hp, Hw3. rewrite <- (app_nil_r (card_frame <$> hits)).
    rewrite Hdeal. now rewrite !app_nil_r.
  - destruct Hp as (-> & He). split.
    + destruct He as [-> | (-> & _)]; auto.
    + left. rewrite Hw3. rewrite <- (app_nil_r (card_frame <$> hits)).
      rewrite Hdeal. now rewrite !app_nil_r.
Qed.

End RoundTrace.

(** X7. The trace of a round on a pile of four cards or more.  The dealer
    shows the player's two cards and its own first card, then one card for
    each hit.  A round that comes to its end goes on in one of two ways:
    the last hit took the player over 21 and a loss follows, with nothing
    after it; or the player stood at 21 or less, and the dealer shows its
    second card, then each card it draws below 17, then the result of
    comparing the two hands.  A round cut by an invalid decision sends no
    result at all. *)
Theorem round_trace (p0 p1 up down : Card) (rest : list Card) (w : world) :
  exists hits pile',
    rest = hits ++ pile'
    /\ match play_on (p0 :: p1 :: up :: down :: rest) w with
       | (Ok NextRound, w') =>
           (21 < sum_cards ([p0; p1] ++ hits)
            /\ (exists hs c, hits = hs ++ [c] /\ safe [p0; p1] hs)
            /\ sent w' = sent w ++ (card_frame <$> [p0; p1; up] ++ hits)
                         ++ [frame RES_LOSS None])
           \/ (safe [p0; p1] hits
               /\ exists cards pile'',
                    pile' = cards ++ pile''
                    /\ (forall k, (k < length cards)%nat ->
                          sum_cards ([up; down] ++ take k cards) < 17)
                    /\ 17 <= sum_cards ([up; down] ++ cards)
                    /\ sent w'
                       = sent w ++ (card_frame <$> [p0; p1; up] ++ hits)
                         ++ (card_frame <$> down :: cards)
                         ++ [frame (stand_result
                                      (sum_cards ([p0; p1] ++ hits))
                                      (sum_cards ([up; down] ++ cards)))
                               None])
       | (Ok Return, w') =>
           sent w' = sent w ++ (card_frame <$> [p0; p1; up] ++ hits)
       | (Raise e, w') =>
           (e = ConnectionError \/ e = IndexError)
           /\ (sent w' = sent w ++ (card_frame <$> [p0; p1; up] ++ hits)
               \/ sent w' = sent w ++ (card_frame <$> [p0; p1; up] ++ hits)
                            ++ (card_frame <$> down :: pile'))
       end.
Proof. apply play_on_trace. Qed.

(* ================================================================== *)
(** ** What goes over the wire in a session *)
(* ================================================================== *)

Section Wire.

Lemma part_of_pile (pile shown left : list Card) :
  shown ++ left ≡ₚ pile -> NoDup pile -> Forall standard pile ->
  NoDup shown /\ Forall standard shown.
Proof.
  intros Hp Hn Hs. rewrite <- Hp in Hn, Hs.
  apply NoDup_app in Hn as (Hn & _). apply Forall_app in Hs as (Hs & _).
  auto.
Qed.

Lemma fresh_pile_standard deck :
  deck ≡ₚ ordered_deck ->
  NoDup (rev deck) /\ Forall standard (rev deck) /\ length (rev deck) = 52%nat.
Proof.
  intros Hp.
  assert (rev deck ≡ₚ ordered_deck) as Hr
    by (rewrite <- Hp; symmetry; apply Permutation_rev).
  split; [|split].
  - rewrite Hr. apply ordered_deck_NoDup.
  - rewrite Hr. apply Forall_forall. intros c. apply ordered_deck_elem.
  - rewrite Hr. reflexivity.
Qed.

Lemma standard_worth_all l : Forall standard l -> Forall worth l.
Proof. intros H. eapply Forall_impl; [exact H | exact standard_worth]. Qed.

Lemma final_stand_result p d : final_result (stand_result p d).
Proof.
  unfold final_result. destruct (stand_result_cases p d) as [-> | [-> | ->]]; auto.
Qed.

Lemma final_frame_terminal res :
  final_result res -> terminals [frame res None] = 1%nat.
Proof. intros [-> | [-> | ->]]; reflexivity. Qed.

(** The dealer stops drawing before its hand has 17 cards. *)
Lemma dealer_draws_few dealer cards :
  Forall worth dealer -> Forall worth cards ->
  (forall k, (k < length cards)%nat -> sum_cards (dealer ++ take k cards) < 17) ->
  cards = [] \/ (length dealer + length cards <= 17)%nat.
Proof.
  intros Hd Hc Hlt.
  destruct (decide (cards = [])) as [-> | Hne]; [now left | right].
  destruct (exists_last Hne) as (cs & c & ->).
  specialize (Hlt (length cs) ltac:(rewrite length_app; simpl; lia)).
  rewrite take_app_length, sum_cards_app in Hlt.
  apply Forall_app in Hc as [Hcs _].
  apply sum_cards_lower in Hd, Hcs. rewrite length_app. simpl. lia.
Qed.

(** One round of the worker: the cards it shows are distinct cards of the
    standard deck, and a result follows them exactly when the round comes
    to its end. *)
Lemma play_round_wire w :
  exists shown tail,
    sent (play_round w).2 = sent w ++ (card_frame <$> shown) ++ tail
    /\ NoDup shown /\ Forall standard shown
    /\ (tail = [] \/ exists res, final_result res /\ tail = [frame res None])
    /\ ((play_round w).1 = Ok NextRound ->
        tail <> [] /\ (length shown <= 38)%nat)
    /\ ((play_round w).1 <> Ok NextRound -> tail = []).
Proof.
  unfold play_round, mbind.
  destruct (fresh_shuffled_deck_perm w) as (deck & w1 & -> & Hp & _ & Hs & _).
  destruct (fresh_pile_standard deck Hp) as (Hn & Hst & Hl).
  destruct (rev deck) as [|p0 [|p1 [|up [|down rest]]]]; try discriminate Hl.
  destruct (play_on_trace p0 p1 up down rest w1) as (hits & pile' & -> & Ht).
  rewrite <- Hs.
  pose proof (standard_worth_all _ Hst) as Hw.
  apply Forall_cons in Hw as [W0 Hw]. apply Forall_cons in Hw as [W1 Hw].
  apply Forall_cons in Hw as [W2 Hw]. apply Forall_cons in Hw as [W3 Hw].
  apply Forall_app in Hw as [Whits Hw].
  assert (Forall worth [p0; p1]) as Whand by (repeat constructor; assumption).
  destruct (play_on _ _) as [[[|] | e] w'] eqn:E; cbn [fst snd].
  - destruct Ht as [(Hb & (hs & c & -> & Hsafe) & ->)
                   | (Hsafe & cards & pile'' & -> & Hlt & H17 & ->)].
    + exists ([p0; p1; up] ++ hs ++ [c]), [frame RES_LOSS None].
      destruct (part_of_pile (p0 :: p1 :: up :: down :: (hs ++ [c]) ++ pile')
                  ([p0; p1; up] ++ hs ++ [c]) (down :: pile')
                  ltac:(solve_Permutation) Hn Hst) as [Hnd Hstd].
      split; [reflexivity|]. split; [exact Hnd|]. split; [exact Hstd|].
      split; [right; exists RES_LOSS; split; [right; left|]; reflexivity|].
      split; [|intros H; now contradiction H].
      intros _. split; [discriminate|].
      apply Forall_app in Whits as [Whs _].
      destruct (safe_short _ _ Whand Whs Hsafe) as [Hlen | ->];
        rewrite !length_app; simpl in *; lia.
    + exists ([p0; p1; up] ++ hits ++ down :: cards),
        [frame (stand_result (sum_cards ([p0; p1] ++ hits))
                  (sum_cards ([up; down] ++ cards))) None].
      destruct (part_of_pile
                  (p0 :: p1 :: up :: down :: hits ++ cards ++ pile'')
                  ([p0; p1; up] ++ hits ++ down :: cards) pile''
                  ltac:(solve_Permutation) Hn Hst) as [Hnd Hstd].
      split.
      { rewrite !fmap_app, <- !app_assoc. reflexivity. }
      split; [exact Hnd|]. split; [exact Hstd|].
      split; [right; eexists; split;
              [apply final_stand_result | reflexivity]|].
      split; [|intros H; now contradiction H].
      intros _. split; [discriminate|].
      apply Forall_app in Hw as [Wcards _].
      assert (Forall worth [up; down]) as Wdealer
        by (repeat constructor; assumption).
      destruct (dealer_draws_few _ _ Wdealer Wcards Hlt) as [-> | Hc];
        destruct (safe_short _ _ Whand Whits Hsafe) as [Hlen | ->];
        rewrite ?length_app; simpl in *; lia.
  - exists ([p0; p1; up] ++ hits), [].
    destruct (part_of_pile (p0 :: p1 :: up :: down :: hits ++ pile')
                ([p0; p1; up] ++ hits) (down :: pile')
                ltac:(solve_Permutation) Hn Hst) as [Hnd Hstd].
    rewrite app_nil_r. repeat split; auto; discriminate.
  - destruct Ht as (_ & [-> | ->]).
    + exists ([p0; p1; up] ++ hits), [].
      destruct (part_of_pile (p0 :: p1 :: up :: down :: hits ++ pile')
                  ([p0; p1; up] ++ hits) (down :: pile')
                  ltac:(solve_Permutation) Hn Hst) as [Hnd Hstd].
      rewrite app_nil_r. repeat split; auto; discriminate.
    + exists ([p0; p1; up] ++ hits ++ down :: pile'), [].
      destruct (part_of_pile (p0 :: p1 :: up :: down :: hits ++ pile')
                  ([p0; p1; up] ++ hits ++ down :: pile') []
                  ltac:(solve_Permutation) Hn Hst) as [Hnd Hstd].
      rewrite app_nil_r, !fmap_app, <- !app_assoc.
      repeat split; auto; discriminate.
Qed.

End Wire.

(** X8. In every round of the worker the cards shown are distinct cards of
    the standard deck (no card is dealt twice in a round); a result follows
    them exactly when the round comes to its end, and such a round shows 38
    cards at most. *)
Theorem round_shows_distinct_cards (w : world) :
  exists shown tail,
    sent (play_round w).2 = sent w ++ (card_frame <$> shown) ++ tail
    /\ NoDup shown /\ Forall standard shown
    /\ (tail = [] \/ exists res, final_result res /\ tail = [frame res None])
    /\ ((play_round w).1 = Ok NextRound ->
        tail <> [] /\ (length shown <= 38)%nat)
    /\ ((play_round w).1 <> Ok NextRound -> tail = []).
Proof. apply play_round_wire. Qed.

Section Session.

Lemma wire_cards shown :
  Forall standard shown -> Forall wire_frame (card_frame <$> shown).
Proof.
  induction 1 as [|c l Hc _ IH]; constructor; [|exact IH].
  left. eauto.
Qed.

Lemma wire_tail tail :
  tail = [] \/ (exists res, final_result res /\ tail = [frame res None]) ->
  Forall wire_frame tail /\ (terminals tail <= 1)%nat
  /\ (tail <> [] -> terminals tail = 1%nat).
Proof.
  intros [-> | (res & Hres & ->)].
  - repeat split; [constructor | cbn; lia | congruence].
  - rewrite (final_frame_terminal res Hres). repeat split; try lia.
    constructor; [|constructor]. right. eauto.
Qed.

Lemma rounds_loop_wire n : forall w,
  exists fs,
    sent (rounds_loop n w).2 = sent w ++ fs
    /\ Forall wire_frame fs
    /\ (terminals fs <= n)%nat.
Proof.
  induction n as [|n IH]; intros w.
  - exists []. cbn. rewrite app_nil_r. repeat split; [constructor | lia].
  - cbn [rounds_loop]. unfold mbind.
    destruct (play_round_wire w)
      as (shown & tail & Hs & _ & Hst & Htail & _ & _).
    destruct (wire_tail tail Htail) as (Hwt & Hone & _).
    assert (Forall wire_frame ((card_frame <$> shown) ++ tail)
            /\ (terminals ((card_frame <$> shown) ++ tail) <= 1)%nat)
      as [Hfs Hcount].
    { split; [apply Forall_app_2; [now apply wire_cards | exact Hwt]|].
      now rewrite terminals_app, terminals_cards. }
    destruct (play_round w) as [[[|] | e] w1]; cbn [fst snd] in *.
    + destruct (IH w1) as (fs' & Hs' & Hfs' & Hn).
      exists (((card_frame <$> shown) ++ tail) ++ fs').
      rewrite Hs', Hs, <- !app_assoc. split; [reflexivity|].
      replace ((card_frame <$> shown) ++ tail ++ fs')
        with (((card_frame <$> shown) ++ tail) ++ fs')
        by now rewrite <- app_assoc.
      split; [now apply Forall_app_2|].
      rewrite terminals_app. lia.
    + eexists. split; [exact Hs|]. split; [exact Hfs | lia].
    + eexists. split; [exact Hs|]. split; [exact Hfs | lia].
Qed.

Lemma handle_client_wire w :
  exists fs,
    sent (handle_client w).2 = sent w ++ fs
    /\ Forall wire_frame fs
    /\ (terminals fs <= 255)%nat
    /\ (forall req,
          unpack_request (take 38 (inbuf w)) = Ok (Some req) ->
          Z.of_nat (terminals fs) <= clamp_rounds (rounds req))
    /\ ((length (inbuf w) < 38)%nat
        \/ unpack_request (take 38 (inbuf w)) = Ok None -> fs = []).
Proof.
  rewrite handle_client_sent.
  unfold handle_client_body, mbind, read_exact, lift.
  change (calcsize REQUEST_STRUCT) with 38%nat.
  destruct (decide _) as [Hl | Hl].
  2:{ exists []. cbn. rewrite app_nil_r.
      repeat split; [constructor | lia | intros; pose proof (clamp_rounds_range (rounds req)); lia]. }
  destruct (unpack_request_total (take 38 (inbuf w))) as [[req|] Hreq];
    rewrite Hreq.
  - fold (consume 38 w).
    destruct (rounds_loop_wire (Z.to_nat (clamp_rounds (rounds req)))
                (consume 38 w)) as (fs & Hs & Hfs & Hn).
    pose proof (clamp_rounds_range (rounds req)) as Hc.
    exists fs. split; [exact Hs|]. split; [exact Hfs|]. split; [lia|]. split.
    + intros req' E. injection E as <-. lia.
    + intros [Hshort | E]; [lia | discriminate E].
  - exists []. cbn. rewrite app_nil_r.
    repeat split; [constructor | lia | discriminate].
Qed.

(** What the player's side reads in a frame of the dealer. *)
Lemma wire_frame_decode f :
  wire_frame f ->
  length f = 9%nat
  /\ ((exists rank suit,
         unpack_server_update f = Ok (Some (RES_NOT_OVER, rank, suit))
         /\ 1 <= rank <= 13 /\ 0 <= suit <= 3)
      \/ (exists res,
            final_result res
            /\ unpack_server_update f = Ok (Some (res, 0, 0)))).
Proof.
  intros [([rank suit] & [Hr Hsu] & ->) | (res & Hres & ->)];
    (split; [reflexivity|]); cbn [fst snd] in *.
  - left. exists rank, suit. split; [|auto]. unfold card_frame.
    erewrite unpack_server_update_pack
      by apply (frame_packed RES_NOT_OVER (Some (rank, suit))).
    rewrite (land_short rank), (land_byte suit) by lia. reflexivity.
  - right. exists res. split; [exact Hres|].
    destruct Hres as [-> | [-> | ->]]; reflexivity.
Qed.

End Session.

(** X9. Whatever the client sends and whatever the shuffles, every buffer
    the worker sends is one Update of 9 bytes, which decodes either to a
    card of the standard deck with result "not over", or to a tie, loss or
    win with rank 0 and suit 0. *)
Theorem worker_sends_wellformed_updates (w : world) :
  exists fs,
    sent (handle_client w).2 = sent w ++ fs
    /\ forall f, f ∈ fs ->
         length f = 9%nat
         /\ ((exists rank suit,
                unpack_server_update f = Ok (Some (RES_NOT_OVER, rank, suit))
                /\ 1 <= rank <= 13 /\ 0 <= suit <= 3)
             \/ (exists res,
                   final_result res
                   /\ unpack_server_update f = Ok (Some (res, 0, 0)))).
Proof.
  destruct (handle_client_wire w) as (fs & Hs & Hfs & _).
  exists fs. split; [exact Hs|]. intros f Hf. apply wire_frame_decode.
  rewrite Forall_forall in Hfs. now apply Hfs.
Qed.

(** X10. A worker never resolves more rounds than the clamped count of
    the Request it read, so never more than 255, even when the session is
    cut short. *)
Theorem worker_round_budget (w : world) :
  exists fs,
    sent (handle_client w).2 = sent w ++ fs
    /\ (terminals fs <= 255)%nat
    /\ (forall req,
          unpack_request (take 38 (inbuf w)) = Ok (Some req) ->
          Z.of_nat (terminals fs) <= clamp_rounds (rounds req)).
Proof.
  destruct (handle_client_wire w) as (fs & Hs & _ & H255 & Hreq & _).
  exists fs. auto.
Qed.

(** X11. A worker whose peer closes before a whole Request has come logs
    a ConnectionError; one that reads 38 bytes that are no Request (bytes
    0..255 with a wrong cookie or type) returns on "Invalid request"; in
    both cases it sends nothing and closes the socket. *)
Theorem worker_rejects_bad_request (w : world) :
  ((length (inbuf w) < 38)%nat ->
   (handle_client w).1 = ConnectionErrorLogged ConnectionError
   /\ sent (handle_client w).2 = sent w
   /\ closed (handle_client w).2 = true)
  /\ ((38 <= length (inbuf w))%nat -> is_bytes (inbuf w) ->
      take 4 (inbuf w) <> be_bytes 4 MAGIC_COOKIE
      \/ inbuf w !! 4%nat <> Some MSG_REQUEST ->
      (handle_client w).1 = Returned InvalidRequest
      /\ sent (handle_client w).2 = sent w
      /\ inbuf (handle_client w).2 = drop 38 (inbuf w)
      /\ closed (handle_client w).2 = true).
Proof.
  unfold handle_client, try_worker, handle_client_body, mbind, read_exact, lift.
  change (calcsize REQUEST_STRUCT) with 38%nat.
  split.
  - intros Hl. rewrite decide_False by lia. auto.
  - intros Hl Hb Hbad. rewrite decide_True by lia.
    rewrite unpack_request_eq.
    rewrite decide_False by (rewrite length_take; lia). cbn zeta.
    rewrite take_idemp.
    rewrite (malformed_header REQUEST_STRUCT MSG_REQUEST (inbuf w) 38 Hb
               ltac:(lia) eq_refl (or_intror Hbad) ltac:(lia)).
    auto.
Qed.

Lemma worker_rejects_bad_request_witness :
  (handle_client (World [0xAB; 0xCD; 0xDC; 0xBA; 3; 1] [] false (fun n => n) 0)).1
  = ConnectionErrorLogged ConnectionError
  /\ (handle_client
        (World ([0xAB; 0xCD; 0xDC; 0xBA; 2; 1] ++ replicate 40 65)
           [] false (fun n => n) 0)).1
     = Returned InvalidRequest.
Proof.
  split.
  - apply (worker_rejects_bad_request
             (World [0xAB; 0xCD; 0xDC; 0xBA; 3; 1] [] false (fun n => n) 0)).
    simpl. lia.
  - apply (worker_rejects_bad_request
             (World ([0xAB; 0xCD; 0xDC; 0xBA; 2; 1] ++ replicate 40 65)
                [] false (fun n => n) 0)).
    + simpl. lia.
    + vm_compute. repeat constructor; discriminate.
    + right. vm_compute. discriminate.
Defined.

(* ================================================================== *)
(** ** Discovery *)
(* ================================================================== *)

Section Discovery.

Lemma is_bytes_check b :
  forallb (fun x => (0 <=? x) && (x <? 256)) b = true -> is_bytes b.
Proof.
  intros H. apply List.Forall_forall. intros x Hx.
  rewrite forallb_forall in H. specialize (H x Hx).
  apply andb_prop in H as [H1 H2].
  apply Z.leb_le in H1. apply Z.ltb_lt in H2. lia.
Qed.

Lemma unpack_offer_malformed data :
  is_bytes data -> malformed OFFER_STRUCT MSG_OFFER data ->
  unpack_offer data = Ok None.
Proof.
  intros Hb Hm. rewrite unpack_offer_eq.
  destruct (decide _) as [|Hl]; [reflexivity|]. cbn zeta.
  now rewrite (malformed_header OFFER_STRUCT MSG_OFFER data 39 Hb
                 ltac:(lia) eq_refl Hm Hl).
Qed.

Lemma junk_rejected d : junk d -> unpack_offer (take 2048 d.1) = Ok None.
Proof.
  intros [Hb Hm]. apply unpack_offer_malformed; [now apply Forall_take|].
  destruct Hm as [Hs | [Hc | Ht]].
  - left. rewrite length_take. lia.
  - right. left. now rewrite take_take.
  - right. right. now rewrite lookup_take_lt by lia.
Qed.

Lemma listen_skips_junk timed bad later :
  Forall junk bad ->
  listen_for_offer timed (bad ++ later) = listen_for_offer timed later.
Proof.
  induction 1 as [|[data ip] bad Hd _ IH]; [reflexivity|].
  cbn [app listen_for_offer].
  pose proof (junk_rejected (data, ip) Hd) as Hj. cbn [fst] in Hj.
  rewrite Hj. exact IH.
Qed.

End Discovery.

(** X12. Discovery end to end.  With a port in 0..65535 and a valid
    name, the broadcaster sends, turn after turn, one same datagram of 39
    bytes; and a listener that gets any number of junk datagrams and then
    one of the broadcaster's returns the address it came from, the port
    and the name, whatever comes later and with or without a timeout. *)
Theorem discovery_finds_the_dealer
  (turns : nat) (port : Z) (name : str)
  (bad later : list (bytes * str)) (ip : str) (timed : bool) :
  0 <= port <= 65535 ->
  valid_name name = true ->
  Forall junk bad ->
  exists msg,
    udp_broadcaster turns port name = Ok (replicate turns msg)
    /\ length msg = 39%nat
    /\ listen_for_offer timed (bad ++ (msg, ip) :: later)
       = Ok (Heard ip port name).
Proof.
  intros Hp Hn Hbad.
  pose proof (pack_offer_ok port name Hp) as Hmsg.
  eexists. split; [unfold udp_broadcaster; rewrite Hmsg; reflexivity|].
  split; [apply (pack_length OFFER_STRUCT _ _ Hmsg)|].
  rewrite listen_skips_junk by exact Hbad. cbn [listen_for_offer].
  rewrite take_ge
    by (rewrite (pack_length OFFER_STRUCT _ _ Hmsg); vm_compute; lia).
  rewrite (unpack_offer_pack port name _ Hmsg). cbn [Py.bind tcp_port server_name].
  now rewrite fixed_name_round_trip.
Qed.

Lemma discovery_finds_the_dealer_witness :
  exists msg,
    udp_broadcaster 3 40000 (lit "TeamServer"%string) = Ok (replicate 3 msg)
    /\ length msg = 39%nat
    /\ listen_for_offer false
         ([([1; 2; 3], lit "10.0.0.7"%string)]
          ++ (msg, lit "10.0.0.9"%string) :: [])
       = Ok (Heard (lit "10.0.0.9"%string) 40000 (lit "TeamServer"%string)).
Proof.
  apply (discovery_finds_the_dealer 3 40000 (lit "TeamServer"%string)
           [([1; 2; 3], lit "10.0.0.7"%string)] []
           (lit "10.0.0.9"%string) false).
  - lia.
  - reflexivity.
  - apply Forall_cons_2; [|apply Forall_nil_2].
    split; [apply is_bytes_check; reflexivity | left; vm_compute; lia].
Defined.

(** X13. Junk is never taken for an offer: a listener that gets only
    junk datagrams ends on its timeout if it has one, and goes on waiting
    if it has none. *)
Theorem junk_is_never_an_offer (timed : bool) (bad : list (bytes * str)) :
  Forall junk bad ->
  listen_for_offer timed bad = Ok (if timed then TimedOut else Waiting).
Proof.
  intros Hbad. rewrite <- (app_nil_r bad).
  now rewrite listen_skips_junk.
Qed.

Lemma junk_is_never_an_offer_witness :
  listen_for_offer true
    [([0xAB; 0xCD; 0xDC; 0xBA; 3] ++ replicate 34 0, lit "10.0.0.7"%string);
     ([], lit "10.0.0.8"%string)]
  = Ok TimedOut.
Proof.
  apply (junk_is_never_an_offer true).
  apply Forall_cons_2; [|apply Forall_cons_2; [|apply Forall_nil_2]].
  - split; [apply is_bytes_check; reflexivity|].
    right. right. vm_compute. discriminate.
  - split; [apply is_bytes_check; reflexivity|].
    left. vm_compute. lia.
Defined.

(* ================================================================== *)
(** ** The player's side *)
(* ================================================================== *)

Section PlayerSide.

Import Client.

Lemma unpack_server_update_total data :
  exists o, unpack_server_update data = Ok o.
Proof.
  rewrite unpack_server_update_eq.
  destruct (decide _); [eauto|]. cbn zeta. destruct (header_ok _ _); eauto.
Qed.

(** [recv_update] hands over the Update in the next 9 bytes, or raises
    ConnectionError, and changes nothing but the bytes to come. *)
Lemma recv_update_cases s :
  (exists p, recv_update s = (Ok p, took 9 s)
     /\ (9 <= length (incoming s))%nat
     /\ unpack_server_update (take 9 (incoming s)) = Ok (Some p))
  \/ (exists s', recv_update s = (Raise ConnectionError, s')
        /\ outgoing s' = outgoing s /\ asked s' = asked s
        /\ answers s' = answers s
        /\ (length (incoming s') <= length (incoming s))%nat).
Proof.
  unfold recv_update, cbind, read_exact, lift.
  change (calcsize SERVER_PAYLOAD_STRUCT) with 9%nat.
  destruct (decide _) as [Hl | Hl].
  - destruct (unpack_server_update_total (take 9 (incoming s))) as [[p|] E];
      rewrite E.
    + left. exists p. auto.
    + right. eexists. split; [reflexivity|]. cbn.
      rewrite length_drop. repeat split; lia.
  - right. eexists. split; [reflexivity|]. cbn. repeat split; lia.
Qed.

Lemma pack_client_decision_frame (hit : bool) :
  pack_client_decision (if hit then Hittt else Stand)
  = Ok (decision_frame hit).
Proof. destruct hit; reflexivity. Qed.

Lemma card_value_le_10 rank : card_value rank <= 10.
Proof. unfold card_value. destruct (Z.leb_spec 11 rank); lia. Qed.

Lemma count_bust_total res sc :
  total (count_bust res sc) = total sc + 1 /\ grown sc (count_bust res sc).
Proof.
  unfold count_bust, total, grown.
  destruct (res =? RES_LOSS); [|destruct (res =? RES_TIE)]; cbn; lia.
Qed.

Lemma count_final_total res sc :
  total (count_final res sc) = total sc + 1 /\ grown sc (count_final res sc).
Proof.
  unfold count_final, total, grown.
  destruct (res =? RES_WIN); [|destruct (res =? RES_LOSS)]; cbn; lia.
Qed.

Lemma grown_refl sc : grown sc sc.
Proof. unfold grown. lia. Qed.

Lemma grown_trans a b c : grown a b -> grown b c -> grown a c.
Proof. unfold grown. lia. Qed.

Lemma decisions_only_refl s : decisions_only s s.
Proof.
  exists []. cbn. rewrite app_nil_r. repeat split; lia.
Qed.

Lemma decisions_only_trans a b c :
  decisions_only a b -> decisions_only b c -> decisions_only a c.
Proof.
  intros (d1 & Ho1 & Ha1 & Hn1 & Hl1) (d2 & Ho2 & Ha2 & Hn2 & Hl2).
  exists (d1 ++ d2). rewrite Ho2, Ho1, Ha2, Ha1, Hn2, Hn1.
  rewrite fmap_app, length_app, <- app_assoc. repeat split; lia.
Qed.

Lemma decisions_only_took n s : decisions_only s (took n s).
Proof.
  exists []. cbn. rewrite app_nil_r, length_drop. repeat split; lia.
Qed.

Lemma decisions_only_recv s r s' :
  recv_update s = (r, s') -> decisions_only s s'.
Proof.
  destruct (recv_update_cases s) as [(p & E & _) | (s1 & E & Ho & Ha & Hn & Hl)];
    rewrite E; intros H; injection H as <- <-.
  - apply decisions_only_took.
  - exists []. cbn. rewrite app_nil_r. repeat split; auto; lia.
Qed.

Lemma recv_update_raise s e s' :
  recv_update s = (Raise e, s') -> e = ConnectionError.
Proof.
  destruct (recv_update_cases s) as [(p & E & _) | (s1 & E & _)];
    rewrite E; congruence.
Qed.

(** One turn of the player's loop. *)
Lemma player_loop_step fuel ps sc s :
  player_loop fuel ps sc s =
  let hit := answers s (asked s) in
  let s1 := Seat (incoming s) (outgoing s ++ [decision_frame hit])
              (answers s) (S (asked s)) in
  if hit then
    match recv_update s1 with
    | (Ok (res, rank, suit), s2) =>
        if 21 <? ps + card_value rank then
          match recv_update s2 with
          | (Ok (res', _, _), s3) =>
              (Ok (ps + card_value rank, count_bust res' sc), s3)
          | (Raise e, s3) => (Raise e, s3)
          end
        else
          match fuel with
          | O => (Raise ConnectionError, s2)
          | S fuel' => player_loop fuel' (ps + card_value rank) sc s2
          end
    | (Raise e, s2) => (Raise e, s2)
    end
  else (Ok (ps, sc), s1).
Proof.
  destruct fuel; cbn [player_loop]; unfold cbind at 1, prompt_decision;
    unfold cbind at 1, lift; rewrite pack_client_decision_frame;
    unfold cbind at 1, sendall; cbn [incoming outgoing answers asked];
    cbn zeta; (destruct (answers s (asked s)); [|reflexivity]);
    change (str_eqb Hittt Stand) with false; cbn iota; unfold cbind at 1;
    (destruct (recv_update _) as [[[[res rank] suit] | e] s2];
     [|reflexivity]);
    (destruct (21 <? ps + card_value rank); [|reflexivity]);
    unfold cbind;
    destruct (recv_update s2) as [[[[res' rank'] suit'] | e] s3];
    reflexivity.
Qed.

(** The player's loop: it ends at 21 or less with the score as it was, or
    over 21 with one round more in the score. *)
Lemma player_loop_counts fuel : forall ps sc s,
  ps <= 21 ->
  decisions_only s (player_loop fuel ps sc s).2
  /\ match (player_loop fuel ps sc s).1 with
     | Ok (ps', sc') =>
         (ps' <= 21 /\ sc' = sc)
         \/ (21 < ps' /\ total sc' = total sc + 1 /\ grown sc sc')
     | Raise e => e = ConnectionError
     end.
Proof.
  induction fuel as [|fuel IH]; intros ps sc s Hps;
    rewrite player_loop_step; cbn zeta;
    set (hit := answers s (asked s));
    set (s1 := Seat _ _ _ _);
    (assert (decisions_only s s1) as H1
       by (exists [hit]; cbn; repeat split; lia));
    (destruct hit; [|cbn; auto]);
    (destruct (recv_update s1) as [[[[res rank] suit] | e] s2] eqn:E1;
     pose proof (decisions_only_recv _ _ _ E1) as H2;
     [|cbn; split; [eauto using decisions_only_trans
                   | eapply recv_update_raise; eassumption]]);
    (destruct (Z.ltb_spec 21 (ps + card_value rank)) as [Hb | Hb];
     [destruct (recv_update s2) as [[[[res' rank'] suit'] | e] s3] eqn:E2;
      pose proof (decisions_only_recv _ _ _ E2) as H3; cbn;
      (split; [eauto using decisions_only_trans|]);
      [right; split; [exact Hb|]; apply count_bust_total
      | eapply recv_update_raise; eassumption]
     |]).
  - cbn. split; [eauto using decisions_only_trans | reflexivity].
  - destruct (IH (ps + card_value rank) sc s2 Hb) as [H3 Hres].
    split; [eauto using decisions_only_trans | exact Hres].
Qed.

(** One turn of the loop that follows the dealer. *)
Lemma dealer_loop_step fuel ds sc s :
  dealer_loop fuel ds sc s =
  match recv_update s with
  | (Ok (res, rank, suit), s1) =>
      if res =? RES_NOT_OVER then
        match fuel with
        | O => (Raise ConnectionError, s1)
        | S fuel' => dealer_loop fuel' (ds + card_value rank) sc s1
        end
      else (Ok (count_final res sc), s1)
  | (Raise e, s1) => (Raise e, s1)
  end.
Proof.
  destruct fuel; cbn [dealer_loop]; unfold cbind;
    destruct (recv_update s) as [[[[res rank] suit] | e] s1];
    try reflexivity; destruct (res =? RES_NOT_OVER); reflexivity.
Qed.

Lemma dealer_loop_counts fuel : forall ds sc s,
  decisions_only s (dealer_loop fuel ds sc s).2
  /\ match (dealer_loop fuel ds sc s).1 with
     | Ok sc' => total sc' = total sc + 1 /\ grown sc sc'
     | Raise e => e = ConnectionError
     end.
Proof.
  induction fuel as [|fuel IH]; intros ds sc s; rewrite dealer_loop_step;
    (destruct (recv_update s) as [[[[res rank] suit] | e] s1] eqn:E1;
     pose proof (decisions_only_recv _ _ _ E1) as H1;
     [|cbn; split; [exact H1 | eapply recv_update_raise; eassumption]]);
    (destruct (res =? RES_NOT_OVER);
     [|cbn; split; [exact H1 | apply count_final_total]]).
  - cbn. auto.
  - destruct (IH (ds + card_value rank) sc s1) as [H2 Hres].
    split; [eauto using decisions_only_trans | exact Hres].
Qed.


(** The count of turns never runs out: a turn that goes round again has
    read 9 bytes, so with as many turns as there are bytes to come, or
    with any greater number, the loops run the same. *)
Lemma player_loop_fuel f1 : forall f2 ps sc s,
  (length (incoming s) <= f1)%nat -> (length (incoming s) <= f2)%nat ->
  player_loop f1 ps sc s = player_loop f2 ps sc s.
Proof.
  induction f1 as [|f1 IH]; intros f2 ps sc s H1 H2;
    rewrite !player_loop_step; cbn zeta;
    set (s1 := Seat _ _ _ _);
    (destruct (answers s (asked s)); [|reflexivity]);
    (destruct (recv_update_cases s1)
       as [([[res rank] suit] & E & Hl & _) | (s' & E & _)];
     rewrite E; [|reflexivity]);
    (destruct (21 <? ps + card_value rank); [reflexivity|]);
    unfold s1 in Hl; cbn [incoming] in Hl.
  - lia.
  - destruct f2; [lia|].
    apply IH; unfold took, s1; cbn [incoming]; rewrite length_drop; lia.
Qed.

Lemma dealer_loop_fuel f1 : forall f2 ds sc s,
  (length (incoming s) <= f1)%nat -> (length (incoming s) <= f2)%nat ->
  dealer_loop f1 ds sc s = dealer_loop f2 ds sc s.
Proof.
  induction f1 as [|f1 IH]; intros f2 ds sc s H1 H2;
    rewrite !dealer_loop_step;
    (destruct (recv_update_cases s)
       as [([[res rank] suit] & E & Hl & _) | (s' & E & _)];
     rewrite E; [|reflexivity]);
    (destruct (res =? RES_NOT_OVER); [|reflexivity]).
  - lia.
  - destruct f2; [lia|].
    apply IH; unfold took; cbn [incoming]; rewrite length_drop; lia.
Qed.

(** One round of the player's side, read off its definition. *)
Lemma play_round_step sc s :
  Client.play_round sc s =
  match recv_update s with
  | (Raise e, s1) => (Raise e, s1)
  | (Ok (_, rank1, _), s1) =>
  match recv_update s1 with
  | (Raise e, s2) => (Raise e, s2)
  | (Ok (_, rank2, _), s2) =>
  match recv_update s2 with
  | (Raise e, s3) => (Raise e, s3)
  | (Ok (_, rank3, _), s3) =>
  match player_loop (length (incoming s3))
          (0 + card_value rank1 + card_value rank2) sc s3 with
  | (Raise e, s4) => (Raise e, s4)
  | (Ok (ps, sc'), s4) =>
      if ps <=? 21 then
        match recv_update s4 with
        | (Raise e, s5) => (Raise e, s5)
        | (Ok (_, rank4, _), s5) =>
            dealer_loop (length (incoming s5))
              (0 + card_value rank3 + card_value rank4) sc' s5
        end
      else (Ok sc', s4)
  end end end end.
Proof.
  unfold Client.play_round, cbind, to_come.
  destruct (recv_update s) as [[[[? rank1] ?] | e] s1]; [|reflexivity].
  destruct (recv_update s1) as [[[[? rank2] ?] | e] s2]; [|reflexivity].
  destruct (recv_update s2) as [[[[? rank3] ?] | e] s3]; [|reflexivity].
  destruct (player_loop _ _ sc s3) as [[[ps sc'] | e] s4]; [|reflexivity].
  destruct (ps <=? 21); [|reflexivity].
  destruct (recv_update s4) as [[[[? rank4] ?] | e] s5]; reflexivity.
Qed.

(** A round that returns has counted one round, and one only. *)
Lemma play_round_counts sc s :
  decisions_only s (Client.play_round sc s).2
  /\ match (Client.play_round sc s).1 with
     | Ok sc' => total sc' = total sc + 1 /\ grown sc sc'
     | Raise e => e = ConnectionError
     end.
Proof.
  rewrite play_round_step.
  destruct (recv_update s) as [[[[? rank1] ?] | e] s1] eqn:E1;
    pose proof (decisions_only_recv _ _ _ E1) as H1;
    [|cbn; split; [exact H1 | eapply recv_update_raise; eassumption]].
  destruct (recv_update s1) as [[[[? rank2] ?] | e] s2] eqn:E2;
    pose proof (decisions_only_recv _ _ _ E2) as H2;
    [|cbn; split; [eauto using decisions_only_trans
                  | eapply recv_update_raise; eassumption]].
  destruct (recv_update s2) as [[[[? rank3] ?] | e] s3] eqn:E3;
    pose proof (decisions_only_recv _ _ _ E3) as H3;
    [|cbn; split; [eauto using decisions_only_trans
                  | eapply recv_update_raise; eassumption]].
  assert (decisions_only s s3) as H03 by eauto using decisions_only_trans.
  pose proof (card_value_le_10 rank1). pose proof (card_value_le_10 rank2).
  destruct (player_loop_counts (length (incoming s3))
              (0 + card_value rank1 + card_value rank2) sc s3 ltac:(lia))
    as [H4 Hres].
  destruct (player_loop _ _ sc s3) as [[[ps sc'] | e] s4];
    cbn [fst snd] in *;
    [|split; [eauto using decisions_only_trans | exact Hres]].
  assert (decisions_only s s4) as H04 by eauto using decisions_only_trans.
  destruct (Z.leb_spec ps 21) as [Hle | Hgt].
  - destruct Hres as [[_ ->] | [Hb _]]; [|lia].
    destruct (recv_update s4) as [[[[? rank4] ?] | e] s5] eqn:E5;
      pose proof (decisions_only_recv _ _ _ E5) as H5;
      [|cbn; split; [eauto using decisions_only_trans
                    | eapply recv_update_raise; eassumption]].
    destruct (dealer_loop_counts (length (incoming s5))
                (0 + card_value rank3 + card_value rank4) sc s5)
      as [H6 Hd].
    split; [eauto using decisions_only_trans | exact Hd].
  - cbn. split; [exact H04|]. destruct Hres as [[Hle _] | [_ Hres]]; [lia|].
    exact Hres.
Qed.

Lemma rounds_loop_counts n : forall sc s,
  decisions_only s (Client.rounds_loop n sc s).2
  /\ match (Client.rounds_loop n sc s).1 with
     | Ok sc' => total sc' = total sc + Z.of_nat n /\ grown sc sc'
     | Raise e => e = ConnectionError
     end.
Proof.
  induction n as [|n IH]; intros sc s.
  - cbn. split; [apply decisions_only_refl|].
    split; [lia | apply grown_refl].
  - cbn [Client.rounds_loop]. unfold Client.cbind.
    destruct (play_round_counts sc s) as [H1 Hr].
    destruct (Client.play_round sc s) as [[sc1 | e] s1]; cbn [fst snd] in *;
      [|auto].
    destruct (IH sc1 s1) as [H2 Hrs].
    split; [eauto using decisions_only_trans|].
    destruct (Client.rounds_loop n sc1 s1).1 as [sc2 | e]; [|exact Hrs].
    destruct Hr as [Ht Hg], Hrs as [Ht' Hg'].
    split; [lia | eauto using grown_trans].
Qed.

End PlayerSide.

(** X14. A session of the player's side sends the Request first and
    after it nothing but Hittt and Stand decisions; if it returns, its
    three counters are not negative and add up to the number of rounds
    asked for (none below 1): every round is counted once, as a win, a loss
    or a tie; and the only exception it raises is ConnectionError. *)
Theorem session_counts_every_round
  (rounds : Z) (team_name : str) (s : Client.seat) :
  exists req fs,
    pack_request rounds team_name = Ok req
    /\ Client.outgoing (Client.play_session rounds team_name s).2
       = Client.outgoing s ++ req :: fs
    /\ Forall (fun f => pack_client_decision Hittt = Ok f
                        \/ pack_client_decision Stand = Ok f) fs
    /\ match (Client.play_session rounds team_name s).1 with
       | Ok sc =>
           Client.wins sc + Client.losses sc + Client.ties sc = Z.max 0 rounds
           /\ 0 <= Client.wins sc /\ 0 <= Client.losses sc
           /\ 0 <= Client.ties sc
       | Raise e => e = ConnectionError
       end.
Proof.
  unfold Client.play_session, Client.cbind, Client.lift, Client.sendall.
  rewrite pack_request_ok. eexists. 
  set (s1 := Client.Seat _ _ _ _).
  destruct (rounds_loop_counts (Z.to_nat rounds) (Client.Score 0 0 0) s1)
    as [(ds & Ho & _) Hres].
  exists (decision_frame <$> ds). split; [reflexivity|]. split.
  { rewrite Ho. unfold s1. cbn [Client.outgoing].
    rewrite <- app_assoc. reflexivity. }
  split.
  { apply Forall_fmap, Forall_forall. intros [|] _; [left | right]; reflexivity. }
  destruct (Client.rounds_loop _ _ s1).1 as [sc | e]; [|exact Hres].
  destruct Hres as [Ht (Hw & Hl & Hti)]. unfold total in Ht. cbn in *. lia.
Qed.

(* ================================================================== *)
(** ** The two sides of a session together *)
(* ================================================================== *)

Section Together.

Import Client.

Lemma script_step a k n :
  script a k (S n) = decision_frame (a k) ++ script a (S k) n.
Proof. reflexivity. Qed.

Lemma decision_frame_length hit : length (decision_frame hit) = 10%nat.
Proof. destruct hit; reflexivity. Qed.

Lemma unpack_decision_frame hit :
  unpack_client_decision (decision_frame hit)
  = Ok (Some (if hit then Hittt else Stand)).
Proof. destruct hit; reflexivity. Qed.

Lemma unpack_standard_card c :
  standard c ->
  unpack_server_update (card_frame c) = Ok (Some (RES_NOT_OVER, c.1, c.2)).
Proof.
  destruct c as [rank suit]. intros [Hr Hs]. cbn [fst snd] in *.
  unfold card_frame.
  erewrite unpack_server_update_pack
    by apply (frame_packed RES_NOT_OVER (Some (rank, suit))).
  rewrite (land_short rank), (land_byte suit) by lia. reflexivity.
Qed.

Lemma frame_length res card : length (frame res card) = 9%nat.
Proof. destruct card as [[rank suit]|]; reflexivity. Qed.

Lemma recv_frame res card rest out a k :
  recv_update (Seat (frame res card ++ rest) out a k) =
  match unpack_server_update (frame res card) with
  | Ok (Some p) => (Ok p, Seat rest out a k)
  | Ok None => (Raise ConnectionError, Seat rest out a k)
  | Raise e => (Raise e, Seat rest out a k)
  end.
Proof.
  unfold recv_update, cbind, read_exact, lift.
  change (calcsize SERVER_PAYLOAD_STRUCT) with 9%nat.
  cbn [incoming outgoing answers asked].
  rewrite decide_True by (rewrite length_app, frame_length; lia).
  rewrite take_app_length', drop_app_length' by (now rewrite frame_length).
  destruct (unpack_server_update _) as [[p|]|e]; reflexivity.
Qed.

Lemma recv_card c rest out a k :
  standard c ->
  recv_update (Seat (card_frame c ++ rest) out a k)
  = (Ok (RES_NOT_OVER, c.1, c.2), Seat rest out a k).
Proof.
  intros Hc. unfold card_frame. rewrite recv_frame.
  fold (card_frame c). now rewrite unpack_standard_card.
Qed.

Lemma recv_result res rest out a k :
  final_result res ->
  recv_update (Seat (frame res None ++ rest) out a k)
  = (Ok (res, 0, 0), Seat rest out a k).
Proof.
  intros Hres. rewrite recv_frame, unpack_result_frame.
  destruct Hres as [-> | [-> | ->]]; reflexivity.
Qed.

Lemma standard_value c : standard c -> 1 <= card_value c.1 <= 10.
Proof.
  unfold standard, card_value. intros [Hr _].
  destruct (Z.leb_spec 11 c.1); lia.
Qed.

(** The player's turn on both sides.  The dealer reads the decisions of
    the person off its input; the player's side reads the dealer's frames,
    sends those same decisions, and ends on the same hand. *)
Lemma joint_player_turn pile : forall player w a k N junk,
  Forall standard pile ->
  sum_cards player <= 21 ->
  22 - sum_cards player <= Z.of_nat N ->
  22 - sum_cards player <= Z.of_nat (length pile) ->
  inbuf w = script a k N ++ junk ->
  exists (m : nat) hits pile' (bust : bool) w',
    let F := (card_frame <$> hits)
             ++ (if bust then [frame RES_LOSS None] else []) in
    pile = hits ++ pile'
    /\ player_turn pile player w
       = (Ok (if bust then Busted pile' (player ++ hits)
              else Stood pile' (player ++ hits)), w')
    /\ sent w' = sent w ++ F
    /\ inbuf w' = script a (k + m) (N - m) ++ junk
    /\ (m <= N)%nat
    /\ Z.of_nat m + sum_cards player <= 22
    /\ Z.of_nat (length hits) + sum_cards player <= 22
    /\ (if bust then 21 < sum_cards (player ++ hits)
        else sum_cards (player ++ hits) <= 21)
    /\ forall fuel sc out more,
         (length (concat F ++ more) <= fuel)%nat ->
         player_loop fuel (sum_cards player) sc
           (Seat (concat F ++ more) out a k)
         = (Ok (sum_cards (player ++ hits),
                if bust then count_bust RES_LOSS sc else sc),
            Seat more (out ++ (decision_frame <$> (a <$> seq k m)))
              a (k + m)).
Proof.
  induction pile as [|c pile IH]; intros player w a k N junk Hst Hp HN Hlen Hin.
  { simpl in Hlen. lia. }
  destruct N as [|N]; [lia|].
  rewrite script_step, <- app_assoc in Hin.
  rewrite player_turn_step.
  rewrite decide_True
    by (rewrite Hin, length_app, decision_frame_length; lia).
  cbn zeta. rewrite Hin.
  rewrite take_app_length' by (now rewrite decision_frame_length).
  rewrite unpack_decision_frame.
  assert (inbuf (consume 10 w) = script a (S k) N ++ junk) as Hin1.
  { cbn. rewrite Hin. now rewrite drop_app_length'
      by (now rewrite decision_frame_length). }
  apply Forall_cons in Hst as [Hc Hst].
  pose proof (standard_value c Hc) as Hv.
  destruct (a k) eqn:Hak.
  - (* a hit *)
    change (str_eqb Hittt Stand) with false. cbn iota.
    assert (sum_cards (player ++ [c]) = sum_cards player + card_value c.1)
      as Hsum by (rewrite sum_cards_app, sum_cards_one; reflexivity).
    destruct (Z.ltb_spec 21 (sum_cards (player ++ [c]))) as [Hb | Hb].
    + exists 1%nat, [c], pile, true. eexists. cbn zeta.
      split; [reflexivity|]. split; [reflexivity|].
      split; [rewrite !sent_emit, <- app_assoc; reflexivity|].
      split.
      { cbn [inbuf emit]. rewrite Hin1. f_equal. f_equal; lia. }
      split; [lia|]. split; [lia|]. split; [simpl; lia|]. split; [exact Hb|].
      intros fuel sc out more Hfuel.
      rewrite player_loop_step. cbn zeta.
      cbn [incoming outgoing answers asked]. rewrite Hak.
      cbn [fmap list_fmap app concat]. rewrite <- !app_assoc.
      rewrite recv_card by exact Hc.
      rewrite <- Hsum. apply Z.ltb_lt in Hb. rewrite Hb.
      rewrite app_nil_l, recv_result by (right; left; reflexivity).
      cbn [seq fmap list_fmap]. rewrite Hak.
      now replace (k + 1)%nat with (S k) by lia.
    + destruct (IH (player ++ [c]) (emit (card_frame c) (consume 10 w))
                  a (S k) N junk Hst Hb ltac:(lia) ltac:(simpl in Hlen; lia)
                  Hin1)
        as (m & hits & pile' & bust & w' & Hpile & -> & Hs & Hi & Hm & Hms
            & Hhs & Hend & Hclient).
      exists (S m), (c :: hits), pile', bust, w'. cbn zeta.
      rewrite <- !app_assoc in *. cbn [app] in *.
      split; [now rewrite Hpile|]. split; [reflexivity|].
      split; [rewrite Hs, sent_emit, <- app_assoc; reflexivity|].
      split.
      { rewrite Hi. f_equal. f_equal; lia. }
      split; [lia|]. split; [lia|]. split; [simpl length; lia|].
      split; [exact Hend|].
      intros fuel sc out more Hfuel.
      rewrite player_loop_step. cbn zeta.
      cbn [incoming outgoing answers asked]. rewrite Hak.
      cbn [fmap list_fmap app concat] in *. rewrite <- !app_assoc in *.
      rewrite recv_card by exact Hc.
      rewrite <- Hsum.
      destruct (Z.ltb_spec 21 (sum_cards (player ++ [c]))); [lia|].
      rewrite length_app in Hfuel.
      pose proof (frame_length RES_NOT_OVER (Some c)) as Hf9.
      fold (card_frame c) in Hf9.
      destruct fuel as [|fuel]; [lia|].
      rewrite (Hclient fuel sc (out ++ [decision_frame true]) more
                 ltac:(lia)).
      cbn [seq fmap list_fmap]. rewrite Hak, <- app_assoc.
      now replace (k + S m)%nat with (S k + m)%nat by lia.
  - (* a stand *)
    change (str_eqb Stand Stand) with true. cbn iota.
    exists 1%nat, [], (c :: pile), false. eexists. cbn zeta.
    rewrite !app_nil_r.
    split; [reflexivity|]. split; [reflexivity|].
    split; [reflexivity|]. split.
    { rewrite Hin1. f_equal. f_equal; lia. }
    split; [lia|]. split; [lia|]. split; [simpl; lia|]. split; [exact Hp|].
    intros fuel sc out more Hfuel.
    rewrite player_loop_step. cbn zeta.
    cbn [incoming outgoing answers asked]. rewrite Hak.
    cbn [seq fmap list_fmap concat app]. rewrite Hak.
    now replace (k + 1)%nat with (S k) by lia.
Qed.

Lemma final_not_over res : final_result res -> (res =? RES_NOT_OVER) = false.
Proof. intros [-> | [-> | ->]]; reflexivity. Qed.

(** The player's side follows the dealer's cards up to the result. *)
Lemma dealer_loop_on_trace cards : forall fuel ds sc res more out a k,
  Forall standard cards -> final_result res ->
  (length (concat (card_frame <$> cards) ++ frame res None ++ more) <= fuel)%nat ->
  dealer_loop fuel ds sc
    (Seat (concat (card_frame <$> cards) ++ frame res None ++ more) out a k)
  = (Ok (count_final res sc), Seat more out a k).
Proof.
  induction cards as [|c cards IH]; intros fuel ds sc res more out a k Hst Hres Hfuel;
    rewrite dealer_loop_step.
  - cbn [fmap list_fmap concat app].
    rewrite recv_result by exact Hres. now rewrite final_not_over.
  - apply Forall_cons in Hst as [Hc Hst].
    cbn [fmap list_fmap concat] in *. rewrite <- app_assoc in *.
    rewrite recv_card by exact Hc. change (RES_NOT_OVER =? RES_NOT_OVER) with true.
    cbn iota. rewrite length_app in Hfuel.
    pose proof (frame_length RES_NOT_OVER (Some c)) as Hf9.
    fold (card_frame c) in Hf9.
    destruct fuel as [|fuel]; [lia|].
    apply IH; [assumption | assumption | lia].
Qed.

Lemma dealer_turn_inbuf pile : forall player dealer w,
  inbuf (dealer_turn pile player dealer w).2 = inbuf w.
Proof.
  induction pile as [|c pile IH]; intros player dealer w;
    rewrite dealer_turn_step; destruct (sum_cards dealer <? 17);
    try reflexivity.
  cbn zeta. destruct (21 <? _); [reflexivity|]. now rewrite IH.
Qed.

(** With cards enough to reach 17 the dealer's turn comes to its end. *)
Lemma dealer_turn_ends pile player dealer w :
  Forall worth pile ->
  17 <= sum_cards dealer + Z.of_nat (length pile) ->
  exists cards pile',
    pile = cards ++ pile'
    /\ (dealer_turn pile player dealer w).1 = Ok (dealer ++ cards, pile')
    /\ sent (dealer_turn pile player dealer w).2
       = sent w ++ (card_frame <$> cards)
         ++ [frame (stand_result (sum_cards player)
                      (sum_cards (dealer ++ cards))) None].
Proof.
  intros Hw Hlen.
  destruct (dealer_turn_spec pile player dealer w)
    as (cards & pile' & Hp & _ & [(E & _ & Hs) | (_ & -> & Hlow & _)]).
  - exists cards, pile'. auto.
  - exfalso. rewrite app_nil_r in Hp. subst pile.
    rewrite sum_cards_app in Hlow. apply sum_cards_lower in Hw. lia.
Qed.

Lemma tally_app fs gs sc : tally (fs ++ gs) sc = tally gs (tally fs sc).
Proof. unfold tally. apply fold_left_app. Qed.

Lemma tally_cards cs sc :
  Forall standard cs -> tally (card_frame <$> cs) sc = sc.
Proof.
  induction 1 as [|c cs Hc _ IH]; [reflexivity|].
  unfold tally in *. cbn [fmap list_fmap fold_left].
  rewrite unpack_standard_card by exact Hc.
  change (RES_NOT_OVER =? RES_NOT_OVER) with true. exact IH.
Qed.

Lemma tally_result res sc :
  final_result res -> tally [frame res None] sc = count_final res sc.
Proof.
  intros Hres. unfold tally. cbn [fold_left].
  rewrite unpack_result_frame.
  destruct Hres as [-> | [-> | ->]]; reflexivity.
Qed.

(** One round on both sides.  On a pile of standard cards long enough,
    with the person's next decisions as the dealer's input, the dealer
    plays the round to its end; and the player's side, reading the frames
    of the dealer, sends the decisions the dealer read, reads every frame,
    and counts the result the dealer sent. *)
Lemma joint_round pile w a k N junk :
  Forall standard pile -> (39 <= length pile)%nat -> (20 <= N)%nat ->
  inbuf w = script a k N ++ junk ->
  exists F (m : nat) w',
    play_on pile w = (Ok NextRound, w')
    /\ sent w' = sent w ++ F
    /\ inbuf w' = script a (k + m) (N - m) ++ junk
    /\ (m <= 20)%nat
    /\ terminals F = 1%nat
    /\ forall sc out more,
         Client.play_round sc (Seat (concat F ++ more) out a k)
         = (Ok (tally F sc),
            Seat more (out ++ (decision_frame <$> (a <$> seq k m))) a (k + m)).
Proof.
  intros Hst Hlen HN Hin.
  destruct pile as [|p0 [|p1 [|up [|down rest]]]]; try (simpl in Hlen; lia).
  apply Forall_cons in Hst as [S0 Hst]. apply Forall_cons in Hst as [S1 Hst].
  apply Forall_cons in Hst as [S2 Hst]. apply Forall_cons in Hst as [S3 Hst].
  pose proof (standard_value _ S0) as V0. pose proof (standard_value _ S1) as V1.
  pose proof (standard_value _ S2) as V2. pose proof (standard_value _ S3) as V3.
  assert (sum_cards [p0; p1] = card_value p0.1 + card_value p1.1) as Hhand
    by (cbn; lia).
  assert (sum_cards [up; down] = card_value up.1 + card_value down.1) as Hdealer
    by (cbn; lia).
  rewrite play_on_step. cbn zeta.
  set (w3 := emit _ (emit _ (emit _ w))).
  assert (sent w3 = sent w ++ (card_frame <$> [p0; p1; up])) as Hw3
    by (unfold w3; rewrite !sent_emit, <- !app_assoc; reflexivity).
  simpl length in Hlen.
  destruct (joint_player_turn rest [p0; p1] w3 a k N junk Hst
              ltac:(lia) ltac:(lia) ltac:(lia) Hin)
    as (m & hits & pile' & bust & w' & Hpile & -> & Hs & Hi & Hm & Hms & Hhs
        & Hend & Hclient).
  cbn zeta in *. subst rest.
  apply Forall_app in Hst as [Shits Spile'].
  rewrite length_app in Hlen.
  (* the first three frames, on the player's side *)
  assert (forall sc out X,
            Client.play_round sc
              (Seat (concat (card_frame <$> [p0; p1; up]) ++ X) out a k)
            = match player_loop (length X) (sum_cards [p0; p1]) sc
                      (Seat X out a k) with
              | (Raise e, s4) => (Raise e, s4)
              | (Ok (ps, sc'), s4) =>
                  if ps <=? 21 then
                    match recv_update s4 with
                    | (Raise e, s5) => (Raise e, s5)
                    | (Ok (_, rank4, _), s5) =>
                        dealer_loop (length (incoming s5))
                          (0 + card_value up.1 + card_value rank4) sc' s5
                    end
                  else (Ok sc', s4)
              end) as Hdeal.
  { intros sc out X. rewrite play_round_step.
    cbn [fmap list_fmap concat]. rewrite <- !app_assoc, app_nil_l.
    rewrite !recv_card by assumption. cbn [incoming].
    now rewrite Hhand. }
  assert (Forall standard [p0; p1; up]) as Sdeal
    by (repeat (apply Forall_cons_2; [assumption|]); apply Forall_nil_2).
  assert (Forall standard [down]) as Sdown
    by (apply Forall_cons_2; [assumption | apply Forall_nil_2]).
  destruct bust.
  - (* the player went over 21 *)
    exists ((card_frame <$> [p0; p1; up])
            ++ (card_frame <$> hits) ++ [frame RES_LOSS None]), m, w'.
    split; [reflexivity|].
    split; [rewrite Hs, Hw3, <- !app_assoc; reflexivity|].
    split; [exact Hi|]. split; [lia|]. split.
    { rewrite !terminals_app, !terminals_cards. reflexivity. }
    intros sc out more.
    rewrite !tally_app, !tally_cards by assumption.
    rewrite tally_result by (right; left; reflexivity).
    rewrite concat_app, <- app_assoc, Hdeal.
    rewrite Hclient by lia.
    destruct (Z.leb_spec (sum_cards ([p0; p1] ++ hits)) 21); [lia|].
    reflexivity.
  - (* the player stood *)
    rewrite app_nil_r in *.
    destruct (dealer_turn_ends pile' ([p0; p1] ++ hits) [up; down]
                (emit (card_frame down) w'))
      as (cards & pile'' & -> & E & Hsd).
    { now apply standard_worth_all. }
    { rewrite Hdealer. lia. }
    pose proof (dealer_turn_inbuf (cards ++ pile'') ([p0; p1] ++ hits)
                  [up; down] (emit (card_frame down) w')) as Hid.
    destruct (dealer_turn _ _ _ _) as [[v | e] w''] eqn:Ed;
      cbn [fst snd] in *; [|discriminate E].
    apply Forall_app in Spile' as [Scards _].
    set (res := stand_result (sum_cards ([p0; p1] ++ hits))
                  (sum_cards ([up; down] ++ cards))) in *.
    pose proof (final_stand_result (sum_cards ([p0; p1] ++ hits))
                  (sum_cards ([up; down] ++ cards))) as Hres.
    fold res in Hres.
    exists ((card_frame <$> [p0; p1; up]) ++ (card_frame <$> hits)
            ++ [card_frame down] ++ (card_frame <$> cards)
            ++ [frame res None]), m, w''.
    split; [reflexivity|].
    split; [rewrite Hsd, sent_emit, Hs, Hw3, <- !app_assoc; reflexivity|].
    split; [rewrite Hid; exact Hi|]. split; [lia|]. split.
    { rewrite !terminals_app, !terminals_cards.
      change [card_frame down] with (card_frame <$> [down]).
      rewrite terminals_cards. now rewrite (final_frame_terminal res Hres). }
    intros sc out more.
    change [card_frame down] with (card_frame <$> [down]) at 2.
    rewrite !tally_app, !tally_cards by assumption.
    rewrite tally_result by exact Hres.
    rewrite concat_app, <- app_assoc, Hdeal.
    rewrite concat_app, <- app_assoc.
    rewrite Hclient by lia.
    destruct (Z.leb_spec (sum_cards ([p0; p1] ++ hits)) 21); [|lia].
    cbn [app concat]. rewrite <- !app_assoc.
    rewrite recv_card by exact S3. cbn [incoming].
    rewrite concat_app. cbn [concat]. rewrite app_nil_r, <- !app_assoc.
    now rewrite dealer_loop_on_trace by (assumption || lia).
Qed.

End Together.

Section BothSides.

Lemma script_app a k m n :
  script a k (m + n) = script a k m ++ script a (k + m) n.
Proof.
  unfold script. now rewrite seq_app, !fmap_app, concat_app.
Qed.

(** The rounds of a session on both sides. *)
Lemma joint_rounds n : forall w a k N junk,
  (20 * n <= N)%nat ->
  inbuf w = script a k N ++ junk ->
  exists F (m : nat) w',
    rounds_loop n w = (Ok FinishedAllRounds, w')
    /\ sent w' = sent w ++ F
    /\ inbuf w' = script a (k + m) (N - m) ++ junk
    /\ (m <= 20 * n)%nat
    /\ terminals F = n
    /\ forall sc out more,
         Client.rounds_loop n sc (Client.Seat (concat F ++ more) out a k)
         = (Ok (tally F sc),
            Client.Seat more (out ++ (decision_frame <$> (a <$> seq k m))) a (k + m)).
Proof.
  induction n as [|n IH]; intros w a k N junk HN Hin.
  - exists [], 0%nat, w. rewrite app_nil_r, Nat.add_0_r, Nat.sub_0_r.
    repeat split; auto.
    intros sc out more. cbn. now rewrite ?app_nil_r, ?Nat.add_0_r.
  - cbn [rounds_loop]. unfold mbind at 1. unfold play_round, mbind at 1.
    destruct (fresh_shuffled_deck_perm w) as (deck & w1 & -> & Hp & Hi1 & Hs1 & _).
    destruct (fresh_pile_standard deck Hp) as (_ & Hst & Hl).
    destruct (joint_round (rev deck) w1 a k N junk Hst ltac:(lia) ltac:(lia)
                ltac:(now rewrite Hi1))
      as (F1 & m1 & w1' & -> & Hsent1 & Hin1 & Hm1 & Ht1 & Hclient1).
    destruct (IH w1' a (k + m1)%nat (N - m1)%nat junk ltac:(lia) Hin1)
      as (F2 & m2 & w2 & -> & Hsent2 & Hin2 & Hm2 & Ht2 & Hclient2).
    exists (F1 ++ F2), (m1 + m2)%nat, w2.
    split; [reflexivity|].
    split; [rewrite Hsent2, Hsent1, Hs1, <- app_assoc; reflexivity|].
    split; [rewrite Hin2; f_equal; f_equal; lia|].
    split; [lia|]. split; [rewrite terminals_app; lia|].
    intros sc out more. cbn [Client.rounds_loop]. unfold Client.cbind.
    rewrite concat_app, <- app_assoc, Hclient1, Hclient2.
    rewrite tally_app, seq_app, !fmap_app, <- app_assoc.
    now rewrite Nat.add_assoc.
Qed.



End BothSides.

(** X15. The two sides of a session in step.  Take a round count in
    1..255, a person whose decisions are [a 0], [a 1], ..., and let the
    dealer's input be the Request followed by those decisions, at least 20
    for each round (no round needs more), and anything after them.  Then,
    whatever the shuffles, the worker plays all the rounds; and the
    player's side, fed the frames the worker sent, reads every one of
    them, sends the Request and then exactly the decisions the worker
    read, and returns with the score that the worker's results add up
    to. *)
Theorem session_in_step
  (r : Z) (team_name : str) (a : nat -> bool) (N : nat)
  (req junk : bytes) (w : world) :
  1 <= r <= 255 ->
  (20 * Z.to_nat r <= N)%nat ->
  pack_request r team_name = Ok req ->
  inbuf w = req ++ script a 0 N ++ junk ->
  exists F (m : nat),
    (handle_client w).1 = Returned FinishedAllRounds
    /\ sent (handle_client w).2 = sent w ++ F
    /\ terminals F = Z.to_nat r
    /\ inbuf (handle_client w).2 = script a m (N - m) ++ junk
    /\ Client.play_session r team_name (Client.Seat (concat F) [] a 0)
       = (Ok (tally F (Client.Score 0 0 0)),
          Client.Seat [] (req :: (decision_frame <$> (a <$> seq 0 m))) a m).
Proof.
  intros Hr HN Hreq Hin.
  pose proof (pack_length REQUEST_STRUCT _ _ Hreq) as Hl.
  change (calcsize REQUEST_STRUCT) with 38%nat in Hl.
  unfold handle_client, try_worker, handle_client_body, mbind, read_exact, lift.
  change (calcsize REQUEST_STRUCT) with 38%nat.
  rewrite decide_True by (rewrite Hin, length_app; lia).
  rewrite Hin, take_app_length', drop_app_length' by (symmetry; exact Hl).
  rewrite (unpack_request_pack _ _ _ Hreq). cbn [rounds].
  rewrite land_byte by lia.
  replace (clamp_rounds r) with r by (unfold clamp_rounds; lia).
  set (w1 := World _ _ _ _ _).
  destruct (joint_rounds (Z.to_nat r) w1 a 0%nat N junk HN eq_refl)
    as (F & m & w' & -> & Hs & Hi & _ & Ht & Hclient).
  exists F, m. cbn [fst snd close sent inbuf].
  split; [reflexivity|]. split; [exact Hs|]. split; [exact Ht|].
  split; [exact Hi|].
  unfold Client.play_session, Client.cbind, Client.lift, Client.sendall.
  rewrite Hreq. cbn [Client.incoming Client.outgoing Client.answers Client.asked].
  rewrite <- (app_nil_r (concat F)), Hclient. reflexivity.
Qed.

Lemma session_in_step_witness :
  exists F (m : nat),
    (handle_client
       (World (([0xAB; 0xCD; 0xDC; 0xBA; 3; 2] ++ replicate 32 0)
               ++ script (fun n => Nat.even n) 0 40 ++ [])
          [] false (fun n => n) 0)).1
    = Returned FinishedAllRounds
    /\ terminals F = 2%nat
    /\ Client.play_session 2 []
         (Client.Seat (concat F) [] (fun n => Nat.even n) 0)
       = (Ok (tally F (Client.Score 0 0 0)),
          Client.Seat []
            (([0xAB; 0xCD; 0xDC; 0xBA; 3; 2] ++ replicate 32 0)
             :: (decision_frame <$> ((fun n => Nat.even n) <$> seq 0 m)))
            (fun n => Nat.even n) m).
Proof.
  destruct (session_in_step 2 [] (fun n => Nat.even n) 40
              ([0xAB; 0xCD; 0xDC; 0xBA; 3; 2] ++ replicate 32 0) []
              (World (([0xAB; 0xCD; 0xDC; 0xBA; 3; 2] ++ replicate 32 0)
                      ++ script (fun n => Nat.even n) 0 40 ++ [])
                 [] false (fun n => n) 0))
    as (F & m & H1 & _ & H3 & _ & H5).
  - lia.
  - vm_compute. lia.
  - reflexivity.
  - reflexivity.
  - exists F, m. auto.
Defined.
